(** * moat.bms.sched.control: the charge/discharge optimizer

    A shallow embedding of [src/moat/bms/sched/control.py] and the
    properties of the linear program it builds.

    Conventions.
    - Python numbers are modelled as exact rationals ([Q]); rounding of
      binary floating point is not modelled.  [a / b] raises
      [ZeroDivisionError] when [b] is zero, [==] and [<] are the numeric
      comparisons ([Qeq_bool], [Qlt]).
    - [FutureData] objects live in a heap and the forecast sequence is a
      list of references into it, so that the in-place update of
      [price_buy] and aliasing between list entries are visible.
    - [pywraplp] (OR-tools) is an external library.  Its model-building
      interface is embedded as a container of variables, constraints and
      one objective; the simplex engine behind [Solve] is a parameter. *)

From Stdlib Require Import QArith Qfield Lqa.
From stdpp Require Import base option list gmap strings pretty.

Open Scope Q_scope.

(** ** Data of the program *)

(** [FutureData]: the dataclass of control.py. *)
Record FutureData := mkFutureData {
  price_buy : Q;
  price_sell : Q;
  load : Q;
  pv : Q
}.

(** The hardware description is supplied by the caller; these are the
    attributes that [_setup] and [propose] read from it. *)
Record Hardware := mkHardware {
  capacity : Q;
  batt_min_soc : Q;
  batt_max_soc : Q;
  batt_max_chg : Q;
  batt_max_dis : Q;
  batt_eff_chg : Q;
  batt_eff_dis : Q;
  inv_max_chg : Q;
  inv_max_dis : Q;
  inv_eff_chg : Q;
  inv_eff_dis : Q;
  grid_max_in : Q;
  grid_max_out : Q
}.

(** References to [FutureData] objects and the heap holding them. *)
Abbreviation loc := nat (only parsing).
Definition heap := loc -> FutureData.

Definition heap_set (h : heap) (l : loc) (d : FutureData) : heap :=
  fun l' => if Nat.eqb l' l then d else h l'.

(** Python exceptions that the code can raise. *)
Inductive exn :=
| ValueError (i : nat) (buy sell : Q)
| ZeroDivisionError
| AttributeError (attr : string)
| UnboundLocalError (name : string).

(** ** The pywraplp interface *)

(** A bound is a number or [solver.infinity()] with a sign. *)
Inductive ext := NegInf | Fin (q : Q) | PosInf.

(** Variables and rows are referred to by their position in the solver. *)
Abbreviation var := nat (only parsing).
Abbreviation con := nat (only parsing).

Record MPVariable := mkVar {
  var_lb : ext;
  var_ub : ext;
  var_name : string
}.

Record MPConstraint := mkCon {
  con_lb : ext;
  con_ub : ext;
  con_coef : gmap nat Q
}.

Record MPObjective := mkObj {
  obj_coef : gmap nat Q;
  obj_max : bool
}.

Inductive ResultStatus :=
  OPTIMAL | FEASIBLE | INFEASIBLE | UNBOUNDED | ABNORMAL | NOT_SOLVED.

Definition ext_leb (a b : ext) : bool :=
  match a, b with
  | NegInf, _ => true
  | _, PosInf => true
  | Fin x, Fin y => Qle_bool x y
  | _, _ => false
  end.

Definition in_bounds (lb ub : ext) (x : Q) : bool :=
  ext_leb lb (Fin x) && ext_leb (Fin x) ub.

(** Coefficient of a variable in a row; absent entries read as zero. *)
Definition coef_of (m : gmap nat Q) (v : var) : Q := default 0 (m !! v).

Definition GetCoefficient (c : MPConstraint) (v : var) : Q :=
  coef_of (con_coef c) v.

Definition row_value (c : MPConstraint) (x : var -> Q) : Q :=
  map_fold (fun v k acc => acc + k * x v) 0 (con_coef c).

(** ** Python-level effects *)

(** Computations over a state [S] that return or raise.  The state
    survives an exception: objects mutated before a [raise] stay mutated. *)
Definition M (S A : Type) : Type := S -> S * (exn + A).

#[local] Instance M_ret {S} : MRet (M S) := fun A a s => (s, inr a).
#[local] Instance M_bind {S} : MBind (M S) := fun A B f m s =>
  match m s with
  | (s', inr a) => f a s'
  | (s', inl e) => (s', inl e)
  end.

Definition raise {S A} (e : exn) : M S A := fun s => (s, inl e).
Definition get {S} : M S S := fun s => (s, inr s).

(** Python's [a / b] on numbers. *)
Definition pydiv {S} (a b : Q) : M S Q :=
  if Qeq_bool b 0 then raise ZeroDivisionError else mret (a / b).

Definition Qlt_bool (a b : Q) : bool := negb (Qle_bool b a).

Definition get_obj (d : loc) : M heap FutureData := fun h => (h, inr (h d)).
Definition set_obj (d : loc) (x : FutureData) : M heap unit := fun h =>
  (heap_set h d x, inr tt).

(** Lines 96-99 of [_setup], on the object [d] refers to: equal prices
    are pulled apart by writing to the object, a buy price below the sell
    price is an error. *)
Definition check_prices (i : nat) (d : loc) : M heap FutureData :=
  dt ← get_obj d;
  if Qeq_bool (price_buy dt) (price_sell dt) then
    let dt' := mkFutureData (price_buy dt * 1.001) (price_sell dt)
                            (load dt) (pv dt) in
    set_obj d dt';; mret dt'
  else if Qlt_bool (price_buy dt) (price_sell dt) then
    raise (ValueError i (price_buy dt) (price_sell dt))
  else mret dt.

(** The three outcomes of the check on one point. *)
Inductive checked (i : nat) (d : loc) (h : heap)
    : heap * (exn + FutureData) -> Prop :=
| checked_equal :
    price_buy (h d) == price_sell (h d) ->
    checked i d h
      (heap_set h d (mkFutureData (price_buy (h d) * 1.001)
                       (price_sell (h d)) (load (h d)) (pv (h d))),
       inr (mkFutureData (price_buy (h d) * 1.001)
              (price_sell (h d)) (load (h d)) (pv (h d))))
| checked_below :
    price_buy (h d) < price_sell (h d) ->
    checked i d h
      (h, inl (ValueError i (price_buy (h d)) (price_sell (h d))))
| checked_above :
    price_sell (h d) < price_buy (h d) ->
    checked i d h (h, inr (h d)).

Section Glop.

(** The engine behind [Solve]: its private state, what a solve does to it
    given the rows, and the value it then reports for a variable. *)
Variable G : Type.
Variable glop_new : G.
Variable glop_solve :
  list MPVariable -> list MPConstraint -> MPObjective -> G -> G * ResultStatus.
Variable glop_value : G -> var -> Q.

Record Solver := mkSolver {
  variables : list MPVariable;
  constraints : list MPConstraint;
  objective : MPObjective;
  backend : G
}.

Definition new_Solver : Solver :=
  mkSolver [] [] (mkObj ∅ false) glop_new.

(** [solver.NumVar(lb, ub, name)]: the new variable and the solver. *)
Definition NumVar (lb ub : ext) (name : string) (s : Solver) : Solver * var :=
  (mkSolver (variables s ++ [mkVar lb ub name]) (constraints s)
            (objective s) (backend s),
   length (variables s)).

(** [solver.Constraint(lb, ub)]: a row without coefficients. *)
Definition Constraint (lb ub : ext) (s : Solver) : Solver * con :=
  (mkSolver (variables s) (constraints s ++ [mkCon lb ub ∅])
            (objective s) (backend s),
   length (constraints s)).

Definition set_coef (v : var) (k : Q) (c : MPConstraint) : MPConstraint :=
  mkCon (con_lb c) (con_ub c) (<[v := k]> (con_coef c)).

Definition set_lb (x : ext) (c : MPConstraint) : MPConstraint :=
  mkCon x (con_ub c) (con_coef c).

Definition set_ub (x : ext) (c : MPConstraint) : MPConstraint :=
  mkCon (con_lb c) x (con_coef c).

Definition on_constraint (f : MPConstraint -> MPConstraint) (c : con)
    (s : Solver) : Solver :=
  mkSolver (variables s) (alter f c (constraints s)) (objective s) (backend s).

(** [c.SetCoefficient(v, k)], [c.SetLb(x)], [c.SetUb(x)].  A constraint
    handle always refers to a row of its solver. *)
Definition SetCoefficient (c : con) (v : var) (k : Q) : Solver -> Solver :=
  on_constraint (set_coef v k) c.
Definition SetLb (c : con) (x : Q) : Solver -> Solver :=
  on_constraint (set_lb (Fin x)) c.
Definition SetUb (c : con) (x : Q) : Solver -> Solver :=
  on_constraint (set_ub (Fin x)) c.

(** [objective.SetCoefficient(v, k)] and [objective.SetMaximization()]. *)
Definition ObjSetCoefficient (v : var) (k : Q) (s : Solver) : Solver :=
  mkSolver (variables s) (constraints s)
           (mkObj (<[v := k]> (obj_coef (objective s))) (obj_max (objective s)))
           (backend s).

Definition SetMaximization (s : Solver) : Solver :=
  mkSolver (variables s) (constraints s)
           (mkObj (obj_coef (objective s)) true) (backend s).

(** [solver.Solve()] and [v.solution_value()]. *)
Definition Solve (s : Solver) : Solver * ResultStatus :=
  let r := glop_solve (variables s) (constraints s) (objective s) (backend s) in
  (mkSolver (variables s) (constraints s) (objective s) (fst r), snd r).

Definition solution_value (s : Solver) (v : var) : Q :=
  glop_value (backend s) v.

(** An assignment is feasible when it respects every variable's bounds
    and puts every row between its bounds. *)
Definition feasible (s : Solver) (x : var -> Q) : bool :=
  forallb (fun p => in_bounds (var_lb p.2) (var_ub p.2) (x p.1))
          (imap pair (variables s))
  && forallb (fun c => in_bounds (con_lb c) (con_ub c) (row_value c x))
             (constraints s).


(** ** [Model._setup] *)

(** While [_setup] runs, the mutable objects it touches are the forecast
    objects and the solver. *)
Record world := mkWorld {
  w_heap : heap;
  w_solver : Solver
}.

(** A solver method that returns a value, and one that does not. *)
Definition call {A} (f : Solver -> Solver * A) : M world A := fun w =>
  let r := f (w_solver w) in (mkWorld (w_heap w) r.1, inr r.2).
Definition exec (f : Solver -> Solver) : M world unit := fun w =>
  (mkWorld (w_heap w) (f (w_solver w)), inr tt).

(** A step that only touches the forecast objects. *)
Definition on_heap {A} (f : M heap A) : M world A := fun w =>
  let r := f (w_heap w) in (mkWorld r.1 (w_solver w), r.2).

(** Lines 96-99: the check on the two prices of the point just fetched.
    [dt.price_buy *= 1.001] writes to the object that the caller's list
    refers to. *)
Definition guard (i : nat) (d : loc) : M world FutureData :=
  on_heap (check_prices i d).

(** The locals of the loop in [_setup] that are carried from one
    iteration to the next, and the attributes of [self] it appends to. *)
Record frame := mkFrame {
  f_pr : option con;            (* _pr, None before the first period *)
  f_cap : option var;           (* cap, unbound before the first period *)
  f_cap_prev : var;             (* cap_prev *)
  f_battery : list con;         (* c.battery *)
  f_dc : list con;              (* c.dc *)
  f_ac : list con;              (* c.ac *)
  f_price : list con;           (* c.price *)
  f_g_ins : list var;           (* self.g_ins *)
  f_g_outs : list var;          (* self.g_outs *)
  f_caps : list var;            (* self.caps *)
  f_moneys : list var;          (* self.moneys *)
  f_g_in : option var;          (* self.g_in, set in period 0 *)
  f_g_out : option var;         (* self.g_out *)
  f_cap0 : option var;          (* self.cap *)
  f_money : option var          (* self.money *)
}.

(** [_pr.SetCoefficient(cap, num / den)] on the loop's locals. *)
Definition patch (pr : option con) (cap : option var) (num den : Q)
    : M world unit :=
  match pr with
  | None => raise (AttributeError "SetCoefficient")
  | Some p =>
    match cap with
    | None => raise (UnboundLocalError "cap")
    | Some c => k ← pydiv num den; exec (SetCoefficient p c k)
    end
  end.

(** Lines 96-175: one pass of the loop body after [next(data)] returned
    the point at [d]; [i] is the period's index. *)
Definition period (hw : Hardware) (per_hour : Q) (i : nat) (d : loc)
    (f : frame) : M world frame :=
  dt ← guard i d;
  (* variables *)
  cap ← call (NumVar (Fin (capacity hw * batt_min_soc hw))
                     (Fin (capacity hw * batt_max_soc hw)) ("b" +:+ pretty i));
  ub ← pydiv (batt_max_chg hw) per_hour;
  b_chg ← call (NumVar (Fin 0) (Fin ub) ("bc" +:+ pretty i));
  ub ← pydiv (batt_max_dis hw) per_hour;
  b_dis ← call (NumVar (Fin 0) (Fin ub) ("bd" +:+ pretty i));
  ub ← pydiv (pv dt) per_hour;
  s_in ← call (NumVar (Fin 0) (Fin ub) ("pv" +:+ pretty i));
  ub ← pydiv (inv_max_chg hw) per_hour;
  i_chg ← call (NumVar (Fin 0) (Fin ub) ("ic" +:+ pretty i));
  ub ← pydiv (inv_max_dis hw) per_hour;
  i_dis ← call (NumVar (Fin 0) (Fin ub) ("id" +:+ pretty i));
  ub ← pydiv (load dt) per_hour;
  l_out ← call (NumVar (Fin (load dt)) (Fin ub) ("ld" +:+ pretty i));
  ub ← pydiv (grid_max_in hw) per_hour;
  g_in ← call (NumVar (Fin 0) (Fin ub) ("gi" +:+ pretty i));
  ub ← pydiv (grid_max_out hw) per_hour;
  g_out ← call (NumVar (Fin 0) (Fin ub) ("go" +:+ pretty i));
  money ← call (NumVar NegInf PosInf ("pr" +:+ pretty i));
  (* battery charge *)
  _bt ← call (Constraint (Fin 0) (Fin 0));
  exec (SetCoefficient _bt (f_cap_prev f) 1);;
  exec (SetCoefficient _bt b_chg (batt_eff_chg hw));;
  exec (SetCoefficient _bt b_dis (-1));;
  exec (SetCoefficient _bt cap (-1));;
  (* DC power bar *)
  _dc ← call (Constraint (Fin 0) (Fin 0));
  exec (SetCoefficient _dc s_in 1);;
  exec (SetCoefficient _dc b_dis (batt_eff_dis hw));;
  exec (SetCoefficient _dc i_chg (inv_eff_chg hw));;
  exec (SetCoefficient _dc b_chg (-1));;
  exec (SetCoefficient _dc i_dis (-1));;
  (* AC power bar *)
  _ac ← call (Constraint (Fin 0) (Fin 0));
  exec (SetCoefficient _ac g_in 1);;
  exec (SetCoefficient _ac i_dis (inv_eff_dis hw));;
  exec (SetCoefficient _ac g_out (-1));;
  exec (SetCoefficient _ac l_out (-1));;
  exec (SetCoefficient _ac i_chg (-1));;
  (* money earned *)
  _pr ← call (Constraint (Fin 0) (Fin 0));
  exec (SetCoefficient _pr g_out (price_sell dt));;
  exec (SetCoefficient _pr g_in (- price_buy dt));;
  exec (SetCoefficient _pr money (-1));;
  exec (ObjSetCoefficient money 1);;
  let first (old : option var) (new : var) :=
    if Nat.eqb i 0 then Some new else old in
  mret (mkFrame (Some _pr) (Some cap) cap
                (f_battery f ++ [_bt]) (f_dc f ++ [_dc])
                (f_ac f ++ [_ac]) (f_price f ++ [_pr])
                (f_g_ins f ++ [g_in]) (f_g_outs f ++ [g_out])
                (f_caps f ++ [cap]) (f_moneys f ++ [money])
                (first (f_g_in f) g_in) (first (f_g_out f) g_out)
                (first (f_cap0 f) cap) (first (f_money f) money)).

(** Lines 85-175: the [while True] loop over the iterator [data]; [i] is
    the counter after [i += 1].  Running out of points is the [break]. *)
Fixpoint loop (hw : Hardware) (per_hour chg_inter : Q) (data : list loc)
    (i : nat) (f : frame) : M world frame :=
  (if Nat.eqb i 0 then mret tt
   else patch (f_pr f) (f_cap f) chg_inter (capacity hw));;
  match data with
  | [] => mret f
  | d :: rest =>
    f' ← period hw per_hour i d f;
    loop hw per_hour chg_inter rest (S i) f'
  end.

(** The attributes of a [Model] object. *)
Record Model := mkModel {
  hardware : Hardware;
  data : list loc;
  per_hour : Q;
  chg_inter : Q;
  chg_last : Q;
  solver : Solver;
  cap_init : var;
  constr_init : con;
  c_battery : list con;
  c_dc : list con;
  c_ac : list con;
  c_price : list con;
  g_ins : list var;
  g_outs : list var;
  caps : list var;
  moneys : list var;
  g_in : option var;
  g_out : option var;
  cap : option var;
  money : option var
}.

(** [Model._setup], lines 57-181. *)
Definition _setup (hw : Hardware) (data : list loc)
    (per_hour chg_inter chg_last : Q) : M world Model :=
  cap_init ← call (NumVar (Fin (capacity hw * 0.05))
                          (Fin (capacity hw * 0.95)) "b_init");
  constr_init ← call (Constraint (Fin 0) (Fin 0));
  exec (SetCoefficient constr_init cap_init 1);;
  f ← loop hw per_hour chg_inter data 0
        (mkFrame None None cap_init [] [] [] [] [] [] [] []
                 None None None None);
  match f_pr f with
  | None => mret tt
  | Some _ => patch (f_pr f) (f_cap f) chg_last (capacity hw)
  end;;
  exec SetMaximization;;
  w ← get;
  mret (mkModel hw data per_hour chg_inter chg_last (w_solver w)
                cap_init constr_init
                (f_battery f) (f_dc f) (f_ac f) (f_price f)
                (f_g_ins f) (f_g_outs f) (f_caps f) (f_moneys f)
                (f_g_in f) (f_g_out f) (f_cap0 f) (f_money f)).

(** [Model(hardware, data, per_hour, chg_inter, chg_last)]: the heap
    after the call, and the new object or the exception. *)
Definition Model_init (hw : Hardware) (data : list loc)
    (per_hour chg_inter chg_last : Q) (h : heap) : heap * (exn + Model) :=
  let r := _setup hw data per_hour chg_inter chg_last (mkWorld h new_Solver) in
  (w_heap r.1, r.2).

(** ** Dispatch *)

Definition with_solver (m : Model) (s : Solver) : Model :=
  mkModel (hardware m) (data m) (per_hour m) (chg_inter m) (chg_last m) s
          (cap_init m) (constr_init m)
          (c_battery m) (c_dc m) (c_ac m) (c_price m)
          (g_ins m) (g_outs m) (caps m) (moneys m)
          (g_in m) (g_out m) (cap m) (money m).

Definition exec_solver (f : Solver -> Solver) : M Model unit := fun m =>
  (with_solver m (f (solver m)), inr tt).

(** Reading an attribute that [_setup] may not have set. *)
Definition attr (name : string) (get : Model -> option var) : M Model var :=
  fun m => match get m with
           | Some v => (m, inr v)
           | None => (m, inl (AttributeError name))
           end.

Definition value_of (v : var) : M Model Q := fun m =>
  (m, inr (solution_value (solver m) v)).

(** Lines 191-195 and 206-210: both entry points start alike.  The status
    that [Solve] returns is dropped. *)
Definition resolve (charge : Q) : M Model unit :=
  m ← get;
  let charge := charge * capacity (hardware m) in
  exec_solver (SetLb (constr_init m) charge);;
  exec_solver (SetUb (constr_init m) charge);;
  exec_solver (fun s => (Solve s).1).

Definition result : Type := Q * Q * Q.

(** The tuple computed from four variables, lines 196-200 and 213-217. *)
Definition entry (g_in g_out cap money : var) : M Model result :=
  a ← value_of g_in;
  b ← value_of g_out;
  m ← get;
  c ← value_of cap;
  soc ← pydiv c (capacity (hardware m));
  e ← value_of money;
  mret ((a - b) * per_hour m, soc, e).

(** [Model.propose], lines 183-200. *)
Definition propose (charge : Q) : M Model result :=
  resolve charge;;
  gi ← attr "g_in" g_in;
  a ← value_of gi;
  go ← attr "g_out" g_out;
  b ← value_of go;
  m ← get;
  c ← attr "cap" cap;
  c ← value_of c;
  soc ← pydiv c (capacity (hardware m));
  mo ← attr "money" money;
  e ← value_of mo;
  mret ((a - b) * per_hour m, soc, e).

(** Python's [zip] of four lists. *)
Fixpoint zip4 {A B C D} (a : list A) (b : list B) (c : list C) (d : list D)
    : list (A * B * C * D) :=
  match a, b, c, d with
  | x :: a, y :: b, z :: c, u :: d => (x, y, z, u) :: zip4 a b c d
  | _, _, _, _ => []
  end.

(** What a generator does when it is run to its end: the values it
    yields, then a normal end or an exception. *)
Definition trace (A : Type) : Type := list A * option exn.

Fixpoint yield_entries (rows : list (var * var * var * var)) (m : Model)
    : trace result :=
  match rows with
  | [] => ([], None)
  | (gi, go, c, mo) :: rest =>
    match (entry gi go c mo m).2 with
    | inl e => ([], Some e)
    | inr t => let r := yield_entries rest m in (t :: r.1, r.2)
    end
  end.

(** [Model.proposed], lines 202-217, iterated without other calls on the
    model in between. *)
Definition proposed (charge : Q) (m : Model) : Model * trace result :=
  let m' := (resolve charge m).1 in
  (m', yield_entries (zip4 (g_ins m') (g_outs m') (caps m') (moneys m')) m').

(** The solver of the model once the bounds of the init row are moved,
    and once it is solved again. *)
Definition rebound (soc : Q) (m : Model) : Solver :=
  SetUb (constr_init m) (soc * capacity (hardware m))
        (SetLb (constr_init m) (soc * capacity (hardware m)) (solver m)).

Definition resolved (soc : Q) (m : Model) : Solver :=
  (Solve (rebound soc m)).1.

(** The tuple read from four variables of a solved model. *)
Definition reading (m : Model) (r : var * var * var * var) : result :=
  let '(gi, go, c, mo) := r in
  ((solution_value (solver m) gi
    - solution_value (solver m) go) * per_hour m,
   solution_value (solver m) c / capacity (hardware m),
   solution_value (solver m) mo).

End Glop.

Arguments mkSolver {G}.
Arguments variables {G}.
Arguments constraints {G}.
Arguments objective {G}.
Arguments backend {G}.
Arguments new_Solver {G}.
Arguments NumVar {G}.
Arguments Constraint {G}.
Arguments on_constraint {G}.
Arguments SetCoefficient {G}.
Arguments SetLb {G}.
Arguments SetUb {G}.
Arguments ObjSetCoefficient {G}.
Arguments SetMaximization {G}.
Arguments Solve {G}.
Arguments solution_value {G}.
Arguments feasible {G}.
Arguments mkWorld {G}.
Arguments w_heap {G}.
Arguments w_solver {G}.
Arguments call {G A}.
Arguments exec {G}.
Arguments on_heap {G A}.
Arguments guard {G}.
Arguments patch {G}.
Arguments period {G}.
Arguments loop {G}.
Arguments mkModel {G}.
Arguments hardware {G}.
Arguments data {G}.
Arguments per_hour {G}.
Arguments chg_inter {G}.
Arguments chg_last {G}.
Arguments solver {G}.
Arguments cap_init {G}.
Arguments constr_init {G}.
Arguments c_battery {G}.
Arguments c_dc {G}.
Arguments c_ac {G}.
Arguments c_price {G}.
Arguments g_ins {G}.
Arguments g_outs {G}.
Arguments caps {G}.
Arguments moneys {G}.
Arguments g_in {G}.
Arguments g_out {G}.
Arguments cap {G}.
Arguments money {G}.
Arguments _setup {G}.
Arguments Model_init {G}.
Arguments with_solver {G}.
Arguments exec_solver {G}.
Arguments attr {G}.
Arguments value_of {G}.
Arguments resolve {G}.
Arguments entry {G}.
Arguments propose {G}.
Arguments yield_entries {G}.
Arguments proposed {G}.
Arguments rebound {G}.
Arguments resolved {G}.
Arguments reading {G}.

(** ** The rows and columns that a run of [_setup] leaves behind

    Closed forms used to describe the solver after the loop: the ten
    variables of a period, whose first one ([cap]) has index [b], and
    its four rows. *)

Section Layout.

Variable hw : Hardware.
Variables per_hour chg_inter : Q.

Definition period_vars (i : nat) (dt : FutureData) : list MPVariable :=
  [ mkVar (Fin (capacity hw * batt_min_soc hw))
          (Fin (capacity hw * batt_max_soc hw)) ("b" +:+ pretty i);
    mkVar (Fin 0) (Fin (batt_max_chg hw / per_hour)) ("bc" +:+ pretty i);
    mkVar (Fin 0) (Fin (batt_max_dis hw / per_hour)) ("bd" +:+ pretty i);
    mkVar (Fin 0) (Fin (pv dt / per_hour)) ("pv" +:+ pretty i);
    mkVar (Fin 0) (Fin (inv_max_chg hw / per_hour)) ("ic" +:+ pretty i);
    mkVar (Fin 0) (Fin (inv_max_dis hw / per_hour)) ("id" +:+ pretty i);
    mkVar (Fin (load dt)) (Fin (load dt / per_hour)) ("ld" +:+ pretty i);
    mkVar (Fin 0) (Fin (grid_max_in hw / per_hour)) ("gi" +:+ pretty i);
    mkVar (Fin 0) (Fin (grid_max_out hw / per_hour)) ("go" +:+ pretty i);
    mkVar NegInf PosInf ("pr" +:+ pretty i) ].

Definition battery_row (cap_prev b : var) : MPConstraint :=
  mkCon (Fin 0) (Fin 0)
    (<[b := -1]> (<[(b + 2)%nat := -1]> (<[(b + 1)%nat := batt_eff_chg hw]>
       (<[cap_prev := 1]> ∅)))).

Definition dc_row (b : var) : MPConstraint :=
  mkCon (Fin 0) (Fin 0)
    (<[(b + 5)%nat := -1]> (<[(b + 1)%nat := -1]> (<[(b + 4)%nat := inv_eff_chg hw]>
       (<[(b + 2)%nat := batt_eff_dis hw]> (<[(b + 3)%nat := 1]> ∅))))).

Definition ac_row (b : var) : MPConstraint :=
  mkCon (Fin 0) (Fin 0)
    (<[(b + 4)%nat := -1]> (<[(b + 6)%nat := -1]> (<[(b + 8)%nat := -1]>
       (<[(b + 5)%nat := inv_eff_dis hw]> (<[(b + 7)%nat := 1]> ∅))))).

Definition price_row (b : var) (dt : FutureData) : MPConstraint :=
  mkCon (Fin 0) (Fin 0)
    (<[(b + 9)%nat := -1]> (<[(b + 7)%nat := - price_buy dt]>
       (<[(b + 8)%nat := price_sell dt]> ∅))).

Definition period_rows (cap_prev b : var) (dt : FutureData)
    : list MPConstraint :=
  [battery_row cap_prev b; dc_row b; ac_row b; price_row b dt].

(** The frame after a period whose variables start at [b] and whose rows
    start at [c]. *)
Definition period_frame (i : nat) (b : var) (c : con) (f : frame) : frame :=
  let first (old : option var) (new : var) :=
    if Nat.eqb i 0 then Some new else old in
  mkFrame (Some (c + 3)%nat) (Some b) b
          (f_battery f ++ [c]) (f_dc f ++ [c + 1]%nat)
          (f_ac f ++ [c + 2]%nat) (f_price f ++ [c + 3]%nat)
          (f_g_ins f ++ [b + 7]%nat) (f_g_outs f ++ [b + 8]%nat)
          (f_caps f ++ [b]) (f_moneys f ++ [b + 9]%nat)
          (first (f_g_in f) (b + 7)%nat) (first (f_g_out f) (b + 8)%nat)
          (first (f_cap0 f) b) (first (f_money f) (b + 9)%nat).

(** The checks of lines 96-99 alone, point after point: what the loop
    does to the forecast objects, and the points as the loop reads them. *)
Fixpoint check_all (i : nat) (data : list loc) : M heap (list FutureData) :=
  match data with
  | [] => mret []
  | d :: rest =>
    dt ← check_prices i d;
    dts ← check_all (S i) rest;
    mret (dt :: dts)
  end.

(** [n] indices from [b] on, [k] apart. *)
Fixpoint steps (k b n : nat) : list nat :=
  match n with
  | O => []
  | S n => b :: steps k (b + k)%nat n
  end.

(** Columns, rows and objective added by the loop for the points [dts],
    read in this order, the first of them being period [i] with its
    variables from [b] on.  Every money row carries the coefficient that
    the next pass of the loop puts on the period's [cap]. *)
Fixpoint loop_vars (i : nat) (dts : list FutureData) : list MPVariable :=
  match dts with
  | [] => []
  | dt :: r => period_vars i dt ++ loop_vars (S i) r
  end.

Fixpoint loop_rows (cap_prev b : var) (dts : list FutureData)
    : list MPConstraint :=
  match dts with
  | [] => []
  | dt :: r =>
    [battery_row cap_prev b; dc_row b; ac_row b;
     set_coef b (chg_inter / capacity hw) (price_row b dt)]
    ++ loop_rows b (b + 10)%nat r
  end.

Fixpoint loop_obj (b : var) (n : nat) (o : gmap nat Q) : gmap nat Q :=
  match n with
  | O => o
  | S n => loop_obj (b + 10)%nat n (<[(b + 9)%nat := 1]> o)
  end.

Definition loop_frame (i : nat) (b : var) (c : con) (n : nat) (f : frame)
    : frame :=
  match n with
  | O => f
  | S n' =>
    let first (old : option var) (new : var) :=
      if Nat.eqb i 0 then Some new else old in
    mkFrame (Some (c + 4 * n' + 3)%nat) (Some (b + 10 * n')%nat)
            (b + 10 * n')%nat
            (f_battery f ++ steps 4 c n) (f_dc f ++ steps 4 (c + 1)%nat n)
            (f_ac f ++ steps 4 (c + 2)%nat n) (f_price f ++ steps 4 (c + 3)%nat n)
            (f_g_ins f ++ steps 10 (b + 7)%nat n)
            (f_g_outs f ++ steps 10 (b + 8)%nat n)
            (f_caps f ++ steps 10 b n) (f_moneys f ++ steps 10 (b + 9)%nat n)
            (first (f_g_in f) (b + 7)%nat) (first (f_g_out f) (b + 8)%nat)
            (first (f_cap0 f) b) (first (f_money f) (b + 9)%nat)
  end.

End Layout.

(** The loop from [next(data)] on, after the patch that opens a pass. *)
Definition loop_rest {G} (hw : Hardware) (per_hour chg_inter : Q)
    (data : list loc) (i : nat) (f : frame) : M (world G) frame :=
  match data with
  | [] => mret f
  | d :: rest =>
    f' ← period hw per_hour i d f;
    loop hw per_hour chg_inter rest (S i) f'
  end.

(** The [Model] that [_setup] returns when the loop has read [dts]. *)
Definition built {G} (glop_new : G) (hw : Hardware) (data : list loc)
    (per_hour chg_inter chg_last : Q) (dts : list FutureData) : Model G :=
  let n := length dts in
  let f := loop_frame 0 1%nat 1%nat n
             (mkFrame None None 0%nat [] [] [] [] [] [] [] []
                      None None None None) in
  let rows := mkCon (Fin 0) (Fin 0) (<[0%nat := 1]> ∅)
              :: loop_rows hw chg_inter 0%nat 1%nat dts in
  mkModel hw data per_hour chg_inter chg_last
          (mkSolver
             (mkVar (Fin (capacity hw * 0.05)) (Fin (capacity hw * 0.95))
                    "b_init" :: loop_vars hw per_hour 0 dts)
             (match n with
              | O => rows
              | S n' => alter (set_coef (1 + 10 * n')%nat
                                        (chg_last / capacity hw))
                              (1 + 4 * n' + 3)%nat rows
              end)
             (mkObj (loop_obj 1%nat n ∅) true)
             glop_new)
          0%nat 0%nat
          (f_battery f) (f_dc f) (f_ac f) (f_price f)
          (f_g_ins f) (f_g_outs f) (f_caps f) (f_moneys f)
          (f_g_in f) (f_g_out f) (f_cap0 f) (f_money f).

(** What is left of [_setup] once the loop has ended. *)
Definition finish {G} (hw : Hardware) (data : list loc) (ph ci cl : Q)
    (f : frame) : M (world G) (Model G) :=
  match f_pr f with
  | None => mret tt
  | Some _ => patch (f_pr f) (f_cap f) cl (capacity hw)
  end;;
  exec SetMaximization;;
  w ← get;
  mret (mkModel hw data ph ci cl (w_solver w) 0%nat 0%nat
          (f_battery f) (f_dc f) (f_ac f) (f_price f)
          (f_g_ins f) (f_g_outs f) (f_caps f) (f_moneys f)
          (f_g_in f) (f_g_out f) (f_cap0 f) (f_money f)).

Definition frame0 : frame :=
  mkFrame None None 0%nat [] [] [] [] [] [] [] [] None None None None.

Definition world0 {G} (g0 : G) (hw : Hardware) (h : heap) : world G :=
  mkWorld h (mkSolver [mkVar (Fin (capacity hw * 0.05))
                             (Fin (capacity hw * 0.95)) "b_init"]
                      [mkCon (Fin 0) (Fin 0) (<[0%nat := 1]> ∅)]
                      (mkObj ∅ false) g0).

(** No object with equal negative prices is listed twice. *)
Definition tie_safe (h : heap) (data : list loc) : bool :=
  forallb (fun l =>
             negb (Qeq_bool (price_buy (h l)) (price_sell (h l))
                   && Qlt_bool (price_buy (h l)) 0)
             || (count_occ Nat.eq_dec data l <=? 1)%nat) data.

(** The variable that carries the charge into period [i]: [cap_init]
    for the first period, the [cap] of the period before otherwise. *)
Definition cap_before {G} (m : Model G) (i : nat) : option var :=
  match i with
  | O => Some (cap_init m)
  | S j => caps m !! j
  end.

(** [v] is the variable that [_setup] created under [name]. *)
Definition named {G} (m : Model G) (v : var) (name : string) : Prop :=
  var_name <$> (variables (solver m) !! v) = Some name.

(** ** Sample inputs

    The installation and the forecast point of the specification's
    scenario, and variations of the point. *)

Definition hw_demo : Hardware :=
  mkHardware 10000 0.1 0.9 5000 5000 1 1 5000 5000 1 1 10000 10000.

Definition heap_demo : heap := fun _ => mkFutureData 0.30 0.10 500 2000.

(** Equal prices. *)
Definition heap_tie : heap := fun _ => mkFutureData 0.25 0.25 500 2000.

(** Equal negative prices. *)
Definition heap_negative_tie : heap :=
  fun _ => mkFutureData (-1) (-1) 500 2000.

(** An engine without state that reports [INFEASIBLE] and reads 0.0 for
    every variable, as OR-tools does when a solve has no solution. *)
Definition glop_refusing (vs : list MPVariable) (cs : list MPConstraint)
    (o : MPObjective) (g : unit) : unit * ResultStatus := (g, INFEASIBLE).

Definition glop_zero (g : unit) (v : var) : Q := 0.

(** The models that the constructor returns for one point of the
    scenario, with one and with two periods per hour, and for one point
    with equal prices. *)
Definition demo_model : Model unit :=
  built tt hw_demo [0%nat] 1 0 0 [heap_demo 0%nat].

Definition demo_model_half_hour : Model unit :=
  built tt hw_demo [0%nat] 2 0 0 [heap_demo 0%nat].

Definition heap_tie_after : heap :=
  heap_set heap_tie 0%nat (mkFutureData (0.25 * 1.001) 0.25 500 2000).

Definition demo_model_tie : Model unit :=
  built tt hw_demo [0%nat] 1 0 0 [heap_tie_after 0%nat].

(** An assignment for the variables of [demo_model]: the battery stays
    at half charge and the load is served from the panels. *)
Definition demo_assignment (v : var) : Q :=
  match v with
  | 0%nat | 1%nat => 5000
  | 4%nat | 6%nat | 7%nat => 500
  | _ => 0
  end.

(** ** Properties *)

Section Properties.

Context {G : Type}.
Implicit Types (w : world G) (s : Solver G) (g : G) (m : Model G).
Implicit Types (h : heap) (vs : list MPVariable) (cs : list MPConstraint).

(** *** Running one statement *)

Lemma run_NumVar {B} lb ub n (k : var -> M (world G) B) h vs l cs o g :
  (call (NumVar lb ub n) ≫= k) (mkWorld h (mkSolver (vs ++ l) cs o g))
  = k (length vs + length l)%nat
      (mkWorld h (mkSolver (vs ++ (l ++ [mkVar lb ub n])) cs o g)).
Proof.
  unfold mbind, M_bind, call, NumVar; cbn.
  by rewrite length_app, app_assoc.
Qed.

Lemma run_Constraint {B} lb ub (k : con -> M (world G) B) h vs cs r o g :
  (call (Constraint lb ub) ≫= k) (mkWorld h (mkSolver vs (cs ++ r) o g))
  = k (length cs + length r)%nat
      (mkWorld h (mkSolver vs (cs ++ (r ++ [mkCon lb ub ∅])) o g)).
Proof.
  unfold mbind, M_bind, call, Constraint; cbn.
  by rewrite length_app, app_assoc.
Qed.

Lemma run_SetCoefficient {B} n v x (k : unit -> M (world G) B) h vs cs r o g :
  (exec (SetCoefficient (length cs + n)%nat v x) ≫= k)
    (mkWorld h (mkSolver vs (cs ++ r) o g))
  = k tt (mkWorld h (mkSolver vs (cs ++ alter (set_coef v x) n r) o g)).
Proof.
  unfold mbind, M_bind, exec, SetCoefficient, on_constraint; cbn.
  by rewrite alter_app_r.
Qed.

Lemma run_ObjSetCoefficient {B} v x (k : unit -> M (world G) B) h vs cs o g :
  (exec (ObjSetCoefficient v x) ≫= k) (mkWorld h (mkSolver vs cs o g))
  = k tt (mkWorld h (mkSolver vs cs
            (mkObj (<[v := x]> (obj_coef o)) (obj_max o)) g)).
Proof. reflexivity. Qed.

Lemma run_pydiv {S B} a b (k : Q -> M S B) (x : S) :
  Qeq_bool b 0 = false -> (pydiv a b ≫= k) x = k (a / b) x.
Proof. intros H. unfold pydiv. by rewrite H. Qed.

Lemma run_pydiv_zero {S B} a b (k : Q -> M S B) (x : S) :
  Qeq_bool b 0 = true -> (pydiv a b ≫= k) x = (x, inl ZeroDivisionError).
Proof. intros H. unfold pydiv. by rewrite H. Qed.

Lemma run_guard_ok {B} i d (k : FutureData -> M (world G) B) h s h1 dt :
  check_prices i d h = (h1, inr dt) ->
  (guard i d ≫= k) (mkWorld h s) = k dt (mkWorld h1 s).
Proof.
  intros H. unfold mbind, M_bind, guard, on_heap; cbn. by rewrite H.
Qed.

Lemma run_guard_err {B} i d (k : FutureData -> M (world G) B) h s h1 e :
  check_prices i d h = (h1, inl e) ->
  (guard i d ≫= k) (mkWorld h s) = (mkWorld h1 s, inl e).
Proof.
  intros H. unfold mbind, M_bind, guard, on_heap; cbn. by rewrite H.
Qed.

Ltac run_step Hph :=
  first [ rewrite run_NumVar | rewrite run_Constraint
        | rewrite run_SetCoefficient | rewrite run_ObjSetCoefficient
        | rewrite (run_pydiv _ _ _ _ Hph) ];
  cbn [length app alter list_alter set_coef con_lb con_ub con_coef
       obj_coef obj_max].

(** *** One pass of the loop body *)

Lemma period_run hw ph i d f h vs cs o g h1 dt :
  Qeq_bool ph 0 = false ->
  check_prices i d h = (h1, inr dt) ->
  period hw ph i d f (mkWorld h (mkSolver vs cs o g))
  = (mkWorld h1
       (mkSolver (vs ++ period_vars hw ph i dt)
                 (cs ++ period_rows hw (f_cap_prev f) (length vs) dt)
                 (mkObj (<[(length vs + 9)%nat := 1]> (obj_coef o)) (obj_max o))
                 g),
     inr (period_frame i (length vs) (length cs) f)).
Proof.
  intros Hph Hg. unfold period.
  rewrite (run_guard_ok _ _ _ _ _ _ _ Hg).
  rewrite <- (app_nil_r vs) at 1. rewrite <- (app_nil_r cs) at 1.
  repeat run_step Hph.
  rewrite !Nat.add_0_r. reflexivity.
Qed.

(** *** The whole loop *)

Lemma period_guard_err hw ph i d f h s h1 e :
  check_prices i d h = (h1, inl e) ->
  period hw ph i d f (mkWorld h s) = (mkWorld h1 s, inl e).
Proof. intros Hg. unfold period. by rewrite (run_guard_err _ _ _ _ _ _ _ Hg). Qed.

Lemma period_div_zero hw ph i d f w :
  Qeq_bool ph 0 = true ->
  exists w' e, period hw ph i d f w = (w', inl e).
Proof.
  intros Hph. destruct w as [h [vs cs o g]].
  destruct (check_prices i d h) as [h1 [e|dt]] eqn:Hg.
  - eexists _, _. by apply period_guard_err.
  - unfold period. rewrite (run_guard_ok _ _ _ _ _ _ _ Hg).
    rewrite <- (app_nil_r vs). rewrite run_NumVar.
    rewrite (run_pydiv_zero _ _ _ _ Hph). by eexists _, _.
Qed.

Lemma steps_length k b n : length (steps k b n) = n.
Proof. revert b; induction n; intros; simpl; [done | by rewrite IHn]. Qed.

Lemma steps_lookup k b n j :
  (j < n)%nat -> steps k b n !! j = Some (b + k * j)%nat.
Proof.
  revert b j; induction n as [|n IH]; intros b [|j] Hj; simpl; try lia.
  - f_equal; lia.
  - rewrite IH by lia. f_equal; lia.
Qed.

Lemma steps_lookup_inv k b n j x :
  steps k b n !! j = Some x -> (j < n)%nat /\ x = (b + k * j)%nat.
Proof.
  intros H. assert (j < n)%nat as Hj.
  { apply lookup_lt_Some in H. by rewrite steps_length in H. }
  rewrite steps_lookup in H by done. split; [done | congruence].
Qed.

Lemma loop_frame_step i b c n f :
  loop_frame (S i) (b + 10)%nat (c + 4)%nat n (period_frame i b c f)
  = loop_frame i b c (S n) f.
Proof.
  destruct n as [|n]; unfold loop_frame, period_frame; cbn [f_battery f_dc
    f_ac f_price f_g_ins f_g_outs f_caps f_moneys f_g_in f_g_out f_cap0
    f_money steps Nat.eqb].
  - rewrite !Nat.add_0_r, ?Nat.mul_0_r, ?Nat.add_0_r. reflexivity.
  - rewrite <- !app_assoc. cbn [app].
    replace (c + 4 + 4 * n + 3)%nat with (c + 4 * S n + 3)%nat by lia.
    replace (b + 10 + 10 * n)%nat with (b + 10 * S n)%nat by lia.
    replace (c + 4 + 1)%nat with (c + 1 + 4)%nat by lia.
    replace (c + 4 + 2)%nat with (c + 2 + 4)%nat by lia.
    replace (c + 4 + 3)%nat with (c + 3 + 4)%nat by lia.
    replace (b + 10 + 7)%nat with (b + 7 + 10)%nat by lia.
    replace (b + 10 + 8)%nat with (b + 8 + 10)%nat by lia.
    replace (b + 10 + 9)%nat with (b + 9 + 10)%nat by lia.
    reflexivity.
Qed.

Lemma run_patch {B} n c num den (k : unit -> M (world G) B) h vs cs r o g :
  Qeq_bool den 0 = false ->
  (patch (Some (length cs + n)%nat) (Some c) num den ≫= k)
    (mkWorld h (mkSolver vs (cs ++ r) o g))
  = k tt (mkWorld h (mkSolver vs
            (cs ++ alter (set_coef c (num / den)) n r) o g)).
Proof.
  intros H. unfold patch, pydiv. rewrite H.
  unfold mbind, M_bind, mret, M_ret, exec, SetCoefficient, on_constraint; cbn.
  by rewrite alter_app_r.
Qed.

Lemma run_patch_at {B} p c num den (k : unit -> M (world G) B) h vs cs o g :
  Qeq_bool den 0 = false ->
  (patch (Some p) (Some c) num den ≫= k) (mkWorld h (mkSolver vs cs o g))
  = k tt (mkWorld h (mkSolver vs (alter (set_coef c (num / den)) p cs) o g)).
Proof. intros H. unfold patch, pydiv. by rewrite H. Qed.

Lemma patch_div_zero pr c num den w :
  Qeq_bool den 0 = true ->
  exists e, patch pr c num den w = (w, inl e).
Proof.
  intros H. unfold patch. destruct pr, c; try by eexists.
  unfold pydiv. rewrite H. by eexists.
Qed.

Lemma loop_unfold hw ph ci data i f :
  loop hw ph ci data i f
  = ((if Nat.eqb i 0 then mret tt
      else patch (f_pr f) (f_cap f) ci (capacity hw));;
     loop_rest (G:=G) hw ph ci data i f).
Proof. by destruct data. Qed.

Lemma check_all_cons i d rest h :
  check_all i (d :: rest) h
  = match check_prices i d h with
    | (h1, inl e) => (h1, inl e)
    | (h1, inr dt) =>
      match check_all (S i) rest h1 with
      | (h', inl e) => (h', inl e)
      | (h', inr dts) => (h', inr (dt :: dts))
      end
    end.
Proof.
  cbn [check_all]. unfold mbind, M_bind, mret, M_ret.
  destruct (check_prices i d h) as [h1 [e|dt]]; [done|].
  by destruct (check_all (S i) rest h1) as [h' [e|dts]].
Qed.

(** The loop from the fetch of the next point on, when no division
    fails and every check passes. *)
Lemma loop_run hw ph ci :
  Qeq_bool ph 0 = false -> Qeq_bool (capacity hw) 0 = false ->
  forall data i f h vs cs o g h' dts,
    check_all i data h = (h', inr dts) ->
    loop_rest hw ph ci data i f (mkWorld h (mkSolver vs cs o g))
    = (mkWorld h'
         (mkSolver (vs ++ loop_vars hw ph i dts)
            (cs ++ loop_rows hw ci (f_cap_prev f) (length vs) dts)
            (mkObj (loop_obj (length vs) (length dts) (obj_coef o))
                   (obj_max o)) g),
       inr (loop_frame i (length vs) (length cs) (length dts) f)).
Proof.
  intros Hph Hcap data.
  induction data as [|d rest IH]; intros i f h vs cs o g h' dts Hc.
  - cbn in Hc. injection Hc as <- <-. cbn. rewrite !app_nil_r.
    by destruct o.
  - rewrite check_all_cons in Hc.
    destruct (check_prices i d h) as [h1 [e|dt]] eqn:Hg; [done|].
    destruct (check_all (S i) rest h1) as [h2 [e|dts']] eqn:Hr; [done|].
    injection Hc as <- <-.
    unfold loop_rest at 1, mbind at 1, M_bind at 1.
    rewrite (period_run _ _ _ _ _ _ _ _ _ _ _ _ Hph Hg).
    rewrite loop_unfold. cbn [Nat.eqb period_frame f_pr f_cap].
    unfold period_rows.
    rewrite (run_patch 3 _ _ _ _ _ _ _ _ _ _ Hcap).
    cbn [alter list_alter].
    rewrite (IH _ _ _ _ _ _ _ _ _ Hr).
    cbn [loop_vars loop_rows loop_obj length obj_coef obj_max f_cap_prev].
    rewrite <- !app_assoc, !length_app. cbn [length app].
    rewrite loop_frame_step. reflexivity.
Qed.

Lemma loop_err hw ph ci :
  Qeq_bool ph 0 = false -> Qeq_bool (capacity hw) 0 = false ->
  forall data i f h s h' e,
    check_all i data h = (h', inl e) ->
    exists s',
      loop_rest hw ph ci data i f (mkWorld h s) = (mkWorld h' s', inl e).
Proof.
  intros Hph Hcap data.
  induction data as [|d rest IH]; intros i f h s h' e Hc; [done|].
  rewrite check_all_cons in Hc.
  destruct (check_prices i d h) as [h1 [e1|dt]] eqn:Hg.
  - injection Hc as <- <-. exists s.
    unfold loop_rest, mbind, M_bind.
    by rewrite (period_guard_err _ _ _ _ _ _ _ _ _ Hg).
  - destruct (check_all (S i) rest h1) as [h2 [e2|dts']] eqn:Hr; [|done].
    injection Hc as <- <-. destruct s as [vs cs o g].
    unfold loop_rest at 1, mbind at 1, M_bind at 1.
    rewrite (period_run _ _ _ _ _ _ _ _ _ _ _ _ Hph Hg).
    rewrite loop_unfold. cbn [Nat.eqb period_frame f_pr f_cap].
    unfold period_rows.
    rewrite (run_patch 3 _ _ _ _ _ _ _ _ _ _ Hcap).
    apply IH, Hr.
Qed.

(** *** The constructor *)

Lemma bind_assoc_run {S A B} (m : M S A) (k : A -> M S B) (x : S) :
  (m ≫= k) x = match m x with
               | (x', inr a) => k a x'
               | (x', inl e) => (x', inl e)
               end.
Proof. reflexivity. Qed.

Lemma _setup_unfold (g0 : G) hw data ph ci cl h :
  _setup hw data ph ci cl (mkWorld h (new_Solver g0))
  = (loop_rest hw ph ci data 0 frame0 ≫= finish hw data ph ci cl)
      (world0 g0 hw h).
Proof.
  unfold _setup, new_Solver.
  rewrite (run_NumVar _ _ _ _ h [] [] [] _ _).
  rewrite (run_Constraint _ _ _ h _ [] [] _ _).
  rewrite run_SetCoefficient.
  rewrite (bind_assoc_run (loop _ _ _ _ _ _)), loop_unfold.
  reflexivity.
Qed.

Lemma _setup_run (g0 : G) hw data ph ci cl h :
  Qeq_bool ph 0 = false -> Qeq_bool (capacity hw) 0 = false ->
  match check_all 0 data h with
  | (h', inl e) =>
    exists s', _setup hw data ph ci cl (mkWorld h (new_Solver g0))
               = (mkWorld h' s', inl e)
  | (h', inr dts) =>
    _setup hw data ph ci cl (mkWorld h (new_Solver g0))
    = (mkWorld h' (solver (built g0 hw data ph ci cl dts)),
       inr (built g0 hw data ph ci cl dts))
  end.
Proof.
  intros Hph Hcap. rewrite _setup_unfold. unfold world0.
  destruct (check_all 0 data h) as [h' [e|dts]] eqn:Hc.
  - edestruct (loop_err hw ph ci Hph Hcap) as [s' Hs']; [exact Hc|].
    exists s'. rewrite bind_assoc_run, Hs'. reflexivity.
  - rewrite bind_assoc_run.
    rewrite (loop_run hw ph ci Hph Hcap _ _ _ _ _ _ _ _ _ _ Hc).
    unfold built, finish, frame0.
    cbn [length app Nat.add f_cap_prev obj_coef obj_max].
    destruct (length dts) as [|n'] eqn:Hn.
    + reflexivity.
    + cbn [loop_frame f_pr f_cap].
      rewrite (run_patch_at _ _ _ _ _ _ _ _ _ _ Hcap).
      reflexivity.
Qed.

Theorem Model_init_run (g0 : G) hw data ph ci cl h :
  Qeq_bool ph 0 = false -> Qeq_bool (capacity hw) 0 = false ->
  Model_init g0 hw data ph ci cl h
  = match check_all 0 data h with
    | (h', inl e) => (h', inl e)
    | (h', inr dts) => (h', inr (built g0 hw data ph ci cl dts))
    end.
Proof.
  intros Hph Hcap. unfold Model_init.
  pose proof (_setup_run g0 hw data ph ci cl h Hph Hcap) as H.
  destruct (check_all 0 data h) as [h' [e|dts]].
  - destruct H as [s' ->]. reflexivity.
  - rewrite H. reflexivity.
Qed.

Lemma loop_cap_zero hw ph ci data i f w :
  Qeq_bool (capacity hw) 0 = true -> i <> 0%nat ->
  exists w' e, loop hw ph ci data i f w = (w', inl e).
Proof.
  intros Hcap Hi. rewrite loop_unfold, bind_assoc_run.
  destruct i as [|i]; [done|]. cbn [Nat.eqb].
  destruct (patch_div_zero (f_pr f) (f_cap f) ci _ w Hcap) as [e ->].
  by eexists _, _.
Qed.

Lemma loop_rest_div_zero hw ph ci d rest i f w :
  Qeq_bool ph 0 = true \/ Qeq_bool (capacity hw) 0 = true ->
  exists w' e, loop_rest hw ph ci (d :: rest) i f w = (w', inl e).
Proof.
  intros Hz. unfold loop_rest. rewrite bind_assoc_run.
  destruct (Qeq_bool ph 0) eqn:Hph.
  - destruct (period_div_zero hw ph i d f w Hph) as (w' & e & ->).
    by eexists _, _.
  - destruct Hz as [Hz|Hcap]; [done|]. destruct w as [h [vs cs o g]].
    destruct (check_prices i d h) as [h1 [e|dt]] eqn:Hg.
    + rewrite (period_guard_err _ _ _ _ _ _ _ _ _ Hg). by eexists _, _.
    + rewrite (period_run _ _ _ _ _ _ _ _ _ _ _ _ Hph Hg).
      by apply loop_cap_zero.
Qed.

(** A model is only ever returned in the closed form, and for a forecast
    that is not empty only when no division by zero stood in the way. *)
Theorem Model_init_built (g0 : G) hw data ph ci cl h h' m :
  Model_init g0 hw data ph ci cl h = (h', inr m) ->
  (data <> [] -> Qeq_bool ph 0 = false /\ Qeq_bool (capacity hw) 0 = false)
  /\ exists dts, check_all 0 data h = (h', inr dts)
               /\ m = built g0 hw data ph ci cl dts.
Proof.
  intros Hm. destruct data as [|d rest].
  - split; [done|]. exists []. cbn in Hm. injection Hm as <- <-. done.
  - assert (Qeq_bool ph 0 = false /\ Qeq_bool (capacity hw) 0 = false)
      as [Hph Hcap].
    { destruct (Qeq_bool ph 0) eqn:Hph;
        [|destruct (Qeq_bool (capacity hw) 0) eqn:Hcap; [|done]];
        exfalso; unfold Model_init in Hm; rewrite _setup_unfold in Hm;
        rewrite bind_assoc_run in Hm;
        edestruct (loop_rest_div_zero hw ph ci d rest 0%nat frame0)
          as (w' & e & He); [eauto|rewrite He in Hm; done
                            |eauto|rewrite He in Hm; done]. }
    split; [done|].
    rewrite (Model_init_run _ _ _ _ _ _ _ Hph Hcap) in Hm.
    destruct (check_all 0 (d :: rest) h) as [h2 [e|dts]]; [done|].
    injection Hm as <- <-. by exists dts.
Qed.

End Properties.

(** *** The price check and the caller's forecast objects *)

Lemma heap_set_eq h d x : heap_set h d x d = x.
Proof. unfold heap_set. by rewrite Nat.eqb_refl. Qed.

Lemma heap_set_ne h d x l : l <> d -> heap_set h d x l = h l.
Proof.
  intros H. unfold heap_set. by destruct (Nat.eqb_spec l d).
Qed.

Lemma Qlt_bool_iff a b : Qlt_bool a b = true <-> a < b.
Proof.
  unfold Qlt_bool. rewrite negb_true_iff.
  destruct (Qle_bool b a) eqn:H.
  - apply Qle_bool_iff in H. split; [done | intros; lra].
  - split; [|done]. intros _. destruct (Qlt_le_dec a b) as [|Hle]; [done|].
    apply Qle_bool_iff in Hle. congruence.
Qed.

Lemma Qeq_bool_false a b : Qeq_bool a b = false <-> ~ a == b.
Proof.
  split.
  - intros H He. apply Qeq_bool_iff in He. congruence.
  - intros H. destruct (Qeq_bool a b) eqn:He; [|done].
    apply Qeq_bool_iff in He. done.
Qed.

Lemma Qlt_bool_false a b : Qlt_bool a b = false <-> ~ a < b.
Proof.
  split.
  - intros H He. apply Qlt_bool_iff in He. congruence.
  - intros H. destruct (Qlt_bool a b) eqn:He; [|done].
    apply Qlt_bool_iff in He. done.
Qed.

Lemma check_prices_cases i d h : checked i d h (check_prices i d h).
Proof.
  unfold check_prices, get_obj, set_obj, mbind, M_bind, mret, M_ret, raise.
  destruct (Qeq_bool _ _) eqn:He.
  - apply Qeq_bool_iff in He. by constructor.
  - apply Qeq_bool_false in He. destruct (Qlt_bool _ _) eqn:Hl.
    + apply Qlt_bool_iff in Hl. by constructor.
    + apply Qlt_bool_false in Hl. constructor. lra.
Qed.

Lemma check_all_length data : forall i h h' dts,
  check_all i data h = (h', inr dts) -> length dts = length data.
Proof.
  induction data as [|d rest IH]; intros i h h' dts H.
  - by injection H as <- <-.
  - rewrite check_all_cons in H.
    destruct (check_prices i d h) as [h1 [e|dt]]; [done|].
    destruct (check_all (S i) rest h1) as [h2 [e|dts']] eqn:Hr; [done|].
    injection H as <- <-. cbn. f_equal. eauto.
Qed.

(** Nothing but [price_buy] is ever written. *)
Lemma check_all_frame data : forall i h h' r l,
  check_all i data h = (h', r) ->
  price_sell (h' l) = price_sell (h l) /\ load (h' l) = load (h l)
  /\ pv (h' l) = pv (h l).
Proof.
  induction data as [|d rest IH]; intros i h h' r l H.
  - by injection H as <- <-.
  - rewrite check_all_cons in H.
    assert (price_sell ((check_prices i d h).1 l) = price_sell (h l)
            /\ load ((check_prices i d h).1 l) = load (h l)
            /\ pv ((check_prices i d h).1 l) = pv (h l)) as Hd.
    { destruct (check_prices_cases i d h); cbn; try done.
      destruct (decide (l = d)) as [->|Hne].
      - by rewrite heap_set_eq.
      - by rewrite heap_set_ne. }
    destruct (check_prices i d h) as [h1 [e|dt]]; cbn in Hd.
    + by injection H as <- <-.
    + destruct (check_all (S i) rest h1) as [h2 [e|dts']] eqn:Hr;
        injection H as <- <-;
        destruct (IH _ _ _ _ l Hr) as (-> & -> & ->); done.
Qed.

(** What a run of all checks that raises nothing has done to [price_buy]:
    every point of the sequence had [price_buy >= price_sell], an object
    is rewritten only if it is in the sequence with equal prices, and
    then it ends at 1.001 times its old value. *)
Lemma check_all_buy data : forall i h h' dts,
  check_all i data h = (h', inr dts) ->
  (forall l, In l data -> ~ price_buy (h l) < price_sell (h l))
  /\ (forall l, price_buy (h' l) = price_buy (h l)
           \/ (In l data /\ price_buy (h l) == price_sell (h l)
               /\ price_buy (h' l) == price_buy (h l) * 1.001))
  /\ (forall l, In l data -> price_buy (h l) == price_sell (h l) ->
           price_buy (h' l) == price_buy (h l) * 1.001).
Proof.
  induction data as [|d rest IH]; intros i h h' dts H.
  - injection H as <- <-. by repeat split; intros; auto.
  - rewrite check_all_cons in H.
    pose proof (check_prices_cases i d h) as Hd.
    destruct (check_prices i d h) as [h1 [e|dt]]; [done|].
    destruct (check_all (S i) rest h1) as [h2 [e|dts']] eqn:Hr; [done|].
    injection H as <- <-.
    destruct (IH _ _ _ _ Hr) as (IH1 & IH2 & IH3).
    inversion Hd as [Heq Hh1 | | Hgt Hh1]; subst.
    + (* equal prices at [d]: the object is rewritten *)
      set (p := price_buy (h d)) in *.
      assert (forall l, l <> d ->
                heap_set h d (mkFutureData (p * 1.001) (price_sell (h d))
                                (load (h d)) (pv (h d))) l = h l) as Hne
        by (intros; by apply heap_set_ne).
      assert (price_buy (h2 d) == p * 1.001) as Hd'.
      { destruct (IH2 d) as [E|(_ & E1 & E2)];
          rewrite heap_set_eq in *; cbn in *.
        - by rewrite E.
        - rewrite E2. lra. }
      repeat split.
      * intros l [<-|Hl]; [fold p; lra|].
        destruct (decide (l = d)) as [->|Hn]; [fold p; lra|].
        specialize (IH1 l Hl). by rewrite Hne in IH1.
      * intros l. destruct (decide (l = d)) as [->|Hn].
        -- right. repeat split; [by left | done | done].
        -- destruct (IH2 l) as [E|(E0 & E1 & E2)]; rewrite Hne in * by done.
           ++ by left.
           ++ right. repeat split; [by right | done | done].
      * intros l Hl Hl'. destruct (decide (l = d)) as [->|Hn]; [done|].
        destruct Hl as [->|Hl]; [done|].
        specialize (IH3 l Hl). rewrite Hne in IH3 by done. auto.
    + (* buy above sell at [d]: nothing is written *)
      repeat split.
      * intros l [<-|Hl]; [lra | auto].
      * intros l. destruct (IH2 l) as [E|(E0 & E1 & E2)]; [by left|].
        right. repeat split; [by right | done | done].
      * intros l [<-|Hl] Hl'; [lra | auto].
Qed.

(** The points as the loop reads them, against the heap before and after
    the constructor. *)
Lemma check_all_read data : forall i h h' dts j d dt,
  check_all i data h = (h', inr dts) ->
  data !! j = Some d -> dts !! j = Some dt ->
  price_sell dt = price_sell (h d) /\ load dt = load (h d)
  /\ pv dt = pv (h d) /\ price_buy dt == price_buy (h' d)
  /\ (price_buy (h d) == price_sell (h d) ->
      price_buy dt == price_buy (h d) * 1.001)
  /\ (price_sell (h d) < price_buy (h d) ->
      price_buy dt = price_buy (h d)).
Proof.
  induction data as [|d0 rest IH]; intros i h h' dts j d dt H Hj Hdt; [done|].
  rewrite check_all_cons in H.
  pose proof (check_prices_cases i d0 h) as Hd.
  destruct (check_prices i d0 h) as [h1 [e|dt0]] eqn:Hc; [done|].
  destruct (check_all (S i) rest h1) as [h2 [e|dts']] eqn:Hr; [done|].
  injection H as <- <-.
  destruct (check_all_buy _ _ _ _ _ Hr) as (B1 & B2 & B3).
  destruct j as [|j]; cbn in Hj, Hdt.
  - injection Hj as <-. injection Hdt as <-.
    inversion Hd as [Heq Hh1 | | Hgt Hh1]; subst; cbn.
    + repeat split; try done; try (intros; lra).
      destruct (B2 d0) as [E|(_ & E1 & E2)];
        rewrite heap_set_eq in *; cbn in *.
      * by rewrite E.
      * rewrite E2. lra.
    + repeat split; try done; try (intros; lra).
      destruct (B2 d0) as [E|(_ & E1 & E2)]; [by rewrite E | lra].
  - destruct (IH _ _ _ _ _ _ _ Hr Hj Hdt) as (I1 & I2 & I3 & I4 & I5 & I6).
    inversion Hd as [Heq Hh1 | | Hgt Hh1]; subst; [|done].
    destruct (decide (d = d0)) as [->|Hn].
    + rewrite heap_set_eq in *; cbn in *.
      repeat split; try done; [|intros; lra].
      intros _. destruct (Qlt_le_dec (price_sell (h d0))
                            (price_buy (h d0) * 1.001)) as [Hlt|Hle].
      * by rewrite (I6 Hlt).
      * assert (In d0 rest) as Hin
          by (apply list_elem_of_In, list_elem_of_lookup; eauto).
        specialize (B1 d0 Hin). rewrite heap_set_eq in B1; cbn in B1.
        assert (price_buy (h d0) * 1.001 == price_sell (h d0)) as E by lra.
        rewrite (I5 E). lra.
    + rewrite heap_set_ne in * by done. done.
Qed.

(** *** Reading the closed form *)

Lemma loop_vars_lookup hw ph dts : forall i j k dt,
  dts !! j = Some dt -> (k < 10)%nat ->
  loop_vars hw ph i dts !! (10 * j + k)%nat
  = period_vars hw ph (i + j) dt !! k.
Proof.
  induction dts as [|dt0 r IH]; intros i j k dt Hj Hk; [done|].
  cbn [loop_vars]. destruct j as [|j]; cbn in Hj.
  - injection Hj as ->. rewrite lookup_app_l by (cbn; lia).
    by rewrite Nat.add_0_r.
  - rewrite lookup_app_r by (cbn; lia). cbn [length period_vars].
    replace (10 * S j + k - 10)%nat with (10 * j + k)%nat by lia.
    rewrite (IH _ _ _ _ Hj Hk). by rewrite Nat.add_succ_r.
Qed.

Lemma loop_rows_lookup hw ci dts : forall cp b j k dt,
  dts !! j = Some dt -> (k < 4)%nat ->
  loop_rows hw ci cp b dts !! (4 * j + k)%nat
  = [ battery_row hw (match j with
                      | O => cp
                      | S j' => (b + 10 * j')%nat
                      end) (b + 10 * j)%nat;
      dc_row hw (b + 10 * j)%nat;
      ac_row hw (b + 10 * j)%nat;
      set_coef (b + 10 * j)%nat (ci / capacity hw)
               (price_row (b + 10 * j)%nat dt) ] !! k.
Proof.
  induction dts as [|dt0 r IH]; intros cp b j k dt Hj Hk; [done|].
  cbn [loop_rows]. destruct j as [|j]; cbn in Hj.
  - injection Hj as ->. rewrite lookup_app_l by (cbn; lia).
    by rewrite Nat.mul_0_r, !Nat.add_0_r.
  - rewrite lookup_app_r by (cbn; lia). cbn [length].
    replace (4 * S j + k - 4)%nat with (4 * j + k)%nat by lia.
    rewrite (IH b (b + 10)%nat j k dt Hj Hk).
    replace (b + 10 + 10 * j)%nat with (b + 10 * S j)%nat by lia.
    destruct j as [|j]; [by rewrite Nat.mul_0_r, Nat.add_0_r|].
    by replace (b + 10 + 10 * j)%nat with (b + 10 * S j)%nat by lia.
Qed.

Lemma loop_rows_length hw ci dts : forall cp b,
  length (loop_rows hw ci cp b dts) = (4 * length dts)%nat.
Proof.
  induction dts as [|dt r IH]; intros cp b; [done|].
  cbn [loop_rows length app]. rewrite IH. lia.
Qed.

Lemma loop_vars_length hw ph dts : forall i,
  length (loop_vars hw ph i dts) = (10 * length dts)%nat.
Proof.
  induction dts as [|dt r IH]; intros i; [done|].
  cbn [loop_vars length app period_vars]. rewrite IH. lia.
Qed.

Lemma loop_obj_miss n : forall b o v,
  (forall j, (j < n)%nat -> v <> (b + 10 * j + 9)%nat) ->
  loop_obj b n o !! v = o !! v.
Proof.
  induction n as [|n IH]; intros b o v Hv; [done|].
  cbn [loop_obj]. rewrite IH.
  - apply lookup_insert_ne. specialize (Hv 0%nat). lia.
  - intros j Hj. specialize (Hv (S j)). lia.
Qed.

Lemma loop_obj_hit n : forall b o j,
  (j < n)%nat -> loop_obj b n o !! (b + 10 * j + 9)%nat = Some 1.
Proof.
  induction n as [|n IH]; intros b o j Hj; [lia|].
  cbn [loop_obj]. destruct j as [|j].
  - rewrite loop_obj_miss by (intros; lia).
    rewrite Nat.mul_0_r, Nat.add_0_r. apply lookup_insert_eq.
  - replace (b + 10 * S j + 9)%nat with (b + 10 + 10 * j + 9)%nat by lia.
    apply IH. lia.
Qed.

Lemma lookup_S {A} (x : A) (l : list A) (j : nat) : (x :: l) !! S j = l !! j.
Proof. done. Qed.

Section Built.

Open Scope nat_scope.

Context {G : Type} (g0 : G).
Variables (hw : Hardware) (data : list loc) (ph ci cl : Q).
Variable dts : list FutureData.

Local Abbreviation m := (built g0 hw data ph ci cl dts).
Local Abbreviation n := (length dts).

Lemma built_lists :
  c_battery m = steps 4 1 n /\ c_dc m = steps 4 2 n
  /\ c_ac m = steps 4 3 n /\ c_price m = steps 4 4 n
  /\ g_ins m = steps 10 8 n /\ g_outs m = steps 10 9 n
  /\ caps m = steps 10 1 n /\ moneys m = steps 10 10 n.
Proof. unfold built. by destruct (length dts). Qed.

Lemma built_first :
  g_in m = head (g_ins m) /\ g_out m = head (g_outs m)
  /\ cap m = head (caps m) /\ money m = head (moneys m).
Proof. unfold built. by destruct (length dts). Qed.

Lemma built_params :
  hardware m = hw /\ per_hour m = ph /\ cap_init m = 0%nat
  /\ constr_init m = 0%nat.
Proof. done. Qed.

Lemma built_variables :
  variables (solver m)
  = mkVar (Fin (capacity hw * 0.05)%Q) (Fin (capacity hw * 0.95)%Q) "b_init"
    :: loop_vars hw ph 0 dts.
Proof. done. Qed.

Lemma built_objective :
  objective (solver m) = mkObj (loop_obj 1 n ∅) true.
Proof. done. Qed.

(** Everything about period [i] in one place. *)
Lemma built_period i dt :
  dts !! i = Some dt ->
  let b := (1 + 10 * i)%nat in
  let c := (1 + 4 * i)%nat in
  (caps m !! i = Some b /\ g_ins m !! i = Some (b + 7)%nat
   /\ g_outs m !! i = Some (b + 8)%nat /\ moneys m !! i = Some (b + 9)%nat)
  /\ (c_battery m !! i = Some c /\ c_dc m !! i = Some (c + 1)%nat
      /\ c_ac m !! i = Some (c + 2)%nat /\ c_price m !! i = Some (c + 3)%nat)
  /\ (forall k, (k < 10)%nat ->
        variables (solver m) !! (b + k)%nat = period_vars hw ph i dt !! k)
  /\ constraints (solver m) !! c
     = Some (battery_row hw (match i with
                             | O => 0%nat
                             | S j => (1 + 10 * j)%nat
                             end) b)
  /\ constraints (solver m) !! (c + 1)%nat = Some (dc_row hw b)
  /\ constraints (solver m) !! (c + 2)%nat = Some (ac_row hw b)
  /\ constraints (solver m) !! (c + 3)%nat
     = Some (set_coef b ((if decide (S i = n) then cl else ci) / capacity hw)%Q
                      (price_row b dt)).
Proof.
  intros Hi b c. assert (i < n)%nat as Hn by (by apply lookup_lt_Some in Hi).
  destruct built_lists as (-> & -> & -> & -> & -> & -> & -> & ->).
  rewrite !steps_lookup by done.
  split; [repeat split; f_equal; lia|].
  split; [repeat split; f_equal; lia|].
  split.
  { intros k Hk. rewrite built_variables. subst b.
    replace (1 + 10 * i + k)%nat with (S (10 * i + k)) by lia.
    by rewrite lookup_S, (loop_vars_lookup _ _ _ _ _ _ _ Hi Hk). }
  assert (forall k, (k < 4)%nat ->
            (mkCon (Fin 0%Q) (Fin 0%Q) (<[0%nat := 1%Q]> ∅)
               :: loop_rows hw ci 0 1 dts) !! (c + k)%nat
            = [ battery_row hw (match i with
                                | O => 0%nat
                                | S j => (1 + 10 * j)%nat
                                end) b;
                dc_row hw b; ac_row hw b;
                set_coef b (ci / capacity hw)%Q (price_row b dt) ] !! k) as Hrow.
  { intros k Hk. subst c b.
    replace (1 + 4 * i + k)%nat with (S (4 * i + k)) by lia.
    by rewrite lookup_S, (loop_rows_lookup _ _ _ _ _ _ _ _ Hi Hk). }
  assert (constraints (solver m)
          = match n with
            | O => mkCon (Fin 0%Q) (Fin 0%Q) (<[0%nat := 1%Q]> ∅)
                   :: loop_rows hw ci 0 1 dts
            | S n' => alter (set_coef (1 + 10 * n')%nat (cl / capacity hw)%Q)
                        (1 + 4 * n' + 3)%nat
                        (mkCon (Fin 0%Q) (Fin 0%Q) (<[0%nat := 1%Q]> ∅)
                           :: loop_rows hw ci 0 1 dts)
            end) as -> by done.
  destruct (length dts) as [|n'] eqn:En; [lia|].
  rewrite <- (Nat.add_0_r c) at 1.
  rewrite !list_lookup_alter_ne by lia.
  rewrite (Hrow 0), (Hrow 1), (Hrow 2) by lia. repeat split; try done.
  case_decide as Hlast.
  - subst c b. assert (i = n') as -> by lia.
    rewrite list_lookup_alter_eq, (Hrow 3%nat) by lia.
    cbn [lookup list_lookup fmap option_fmap option_map].
    unfold set_coef; cbn [con_lb con_ub con_coef].
    by rewrite insert_insert_eq.
  - rewrite list_lookup_alter_ne by lia. by rewrite (Hrow 3%nat) by lia.
Qed.

End Built.

Lemma steps_elem_of k b n v :
  v ∈ steps k b n <-> exists j, (j < n)%nat /\ v = (b + k * j)%nat.
Proof.
  rewrite list_elem_of_lookup. split.
  - intros [j Hj]. exists j. by apply steps_lookup_inv in Hj.
  - intros (j & Hj & ->). exists j. by apply steps_lookup.
Qed.

Ltac nodup_lia :=
  repeat (apply NoDup_cons; split;
          [rewrite ?elem_of_cons, elem_of_nil; lia|]);
  apply NoDup_nil_2.

(** A returned model, seen from one point of the forecast. *)
Lemma Model_init_period {G} (g0 : G) hw data ph ci cl h h' m i d :
  Model_init g0 hw data ph ci cl h = (h', inr m) ->
  data !! i = Some d ->
  Qeq_bool ph 0 = false /\ Qeq_bool (capacity hw) 0 = false
  /\ exists dts dt,
       check_all 0 data h = (h', inr dts)
       /\ m = built g0 hw data ph ci cl dts
       /\ length dts = length data
       /\ dts !! i = Some dt.
Proof.
  intros Hm Hi.
  destruct (Model_init_built _ _ _ _ _ _ _ _ _ Hm) as (Hnz & dts & Hc & ->).
  destruct Hnz as [Hph Hcap]; [by intros ->|].
  pose proof (check_all_length _ _ _ _ _ Hc) as Hlen.
  destruct (lookup_lt_is_Some_2 dts i) as [dt Hdt].
  { rewrite Hlen. by apply lookup_lt_Some in Hi. }
  repeat split; try done. by exists dts, dt.
Qed.

(** C1.  Battery balance: for every period [i] of a constructed model
    the row [c.battery[i]] has both bounds zero and reads
    [cap_prev + b_chg * batt_eff_chg - b_dis - cap], where [cap] is
    [caps[i]], [b_chg] and [b_dis] are the period's variables "bc<i>" and
    "bd<i>", and [cap_prev] is [cap_init] for [i = 0] and [caps[i-1]]
    otherwise. *)
Theorem battery_balance_rows {G} (g0 : G) hw data ph ci cl h h' m i d :
  Model_init g0 hw data ph ci cl h = (h', inr m) ->
  data !! i = Some d ->
  exists bt cap_prev cap b_chg b_dis,
    c_battery m !! i = Some bt
    /\ cap_before m i = Some cap_prev
    /\ caps m !! i = Some cap
    /\ named m b_chg ("bc" +:+ pretty i)
    /\ named m b_dis ("bd" +:+ pretty i)
    /\ NoDup [cap_prev; b_chg; b_dis; cap]
    /\ constraints (solver m) !! bt
       = Some (mkCon (Fin 0) (Fin 0)
                 (<[cap := -1]> (<[b_dis := -1]>
                    (<[b_chg := batt_eff_chg hw]> (<[cap_prev := 1]> ∅))))).
Proof.
  intros Hm Hi.
  destruct (Model_init_period _ _ _ _ _ _ _ _ _ _ _ Hm Hi)
    as (Hph & Hcap & dts & dt & Hc & -> & Hlen & Hdt).
  destruct (built_period g0 hw data ph ci cl dts i dt Hdt)
    as ((Hcaps & _) & (Hbt & _) & Hv & Hrow & _).
  exists (1 + 4 * i)%nat,
         (match i with O => 0 | S j => 1 + 10 * j end)%nat,
         (1 + 10 * i)%nat, (1 + 10 * i + 1)%nat, (1 + 10 * i + 2)%nat.
  repeat split; try done.
  - destruct i as [|j]; [done|]. cbn [cap_before].
    destruct (built_lists g0 hw data ph ci cl dts)
      as (_ & _ & _ & _ & _ & _ & -> & _).
    rewrite steps_lookup; [done|]. apply lookup_lt_Some in Hdt. lia.
  - unfold named. by rewrite (Hv 1%nat) by lia.
  - unfold named. by rewrite (Hv 2%nat) by lia.
  - destruct i as [|j]; nodup_lia.
Qed.

(** C2.  For every period [i] of a constructed model the rows
    [c.dc[i]], [c.ac[i]] and [c.price[i]] have both bounds zero and read
    [s_in + b_dis*batt_eff_dis + i_chg*inv_eff_chg - b_chg - i_dis],
    [g_in + i_dis*inv_eff_dis - g_out - l_out - i_chg] and
    [g_out*price_sell - g_in*price_buy - money], over the period's ten
    distinct variables; the prices are those of the period's point after
    the constructor has run.  The money row is this row with the
    coefficient [k] of C3 set on the period's [cap]. *)
Theorem bus_and_money_rows {G} (g0 : G) hw data ph ci cl h h' m i d :
  Model_init g0 hw data ph ci cl h = (h', inr m) ->
  data !! i = Some d ->
  exists cap b_chg b_dis s_in i_chg i_dis l_out g_in g_out money dc ac pr pb,
    (caps m !! i = Some cap /\ g_ins m !! i = Some g_in
     /\ g_outs m !! i = Some g_out /\ moneys m !! i = Some money)
    /\ (named m b_chg ("bc" +:+ pretty i) /\ named m b_dis ("bd" +:+ pretty i)
        /\ named m s_in ("pv" +:+ pretty i) /\ named m i_chg ("ic" +:+ pretty i)
        /\ named m i_dis ("id" +:+ pretty i)
        /\ named m l_out ("ld" +:+ pretty i))
    /\ NoDup [cap; b_chg; b_dis; s_in; i_chg; i_dis; l_out; g_in; g_out; money]
    /\ (c_dc m !! i = Some dc /\ c_ac m !! i = Some ac
        /\ c_price m !! i = Some pr)
    /\ constraints (solver m) !! dc
       = Some (mkCon (Fin 0) (Fin 0)
                 (<[i_dis := -1]> (<[b_chg := -1]>
                    (<[i_chg := inv_eff_chg hw]>
                       (<[b_dis := batt_eff_dis hw]> (<[s_in := 1]> ∅))))))
    /\ constraints (solver m) !! ac
       = Some (mkCon (Fin 0) (Fin 0)
                 (<[i_chg := -1]> (<[l_out := -1]> (<[g_out := -1]>
                    (<[i_dis := inv_eff_dis hw]> (<[g_in := 1]> ∅))))))
    /\ pb == price_buy (h' d)
    /\ constraints (solver m) !! pr
       = Some (set_coef cap
                 ((if decide (S i = length data) then cl else ci)
                  / capacity hw)
                 (mkCon (Fin 0) (Fin 0)
                    (<[money := -1]> (<[g_in := - pb]>
                       (<[g_out := price_sell (h' d)]> ∅))))).
Proof.
  intros Hm Hi.
  destruct (Model_init_period _ _ _ _ _ _ _ _ _ _ _ Hm Hi)
    as (Hph & Hcap & dts & dt & Hc & -> & Hlen & Hdt).
  destruct (built_period g0 hw data ph ci cl dts i dt Hdt)
    as (Hvars & (_ & Hdc) & Hv & _ & Rdc & Rac & Rpr).
  destruct (check_all_read _ _ _ _ _ _ _ _ Hc Hi Hdt)
    as (Hsell & _ & _ & Hbuy & _).
  destruct (check_all_frame _ _ _ _ _ d Hc) as (Hsell' & _).
  set (b := (1 + 10 * i)%nat) in *.
  exists b, (b + 1)%nat, (b + 2)%nat, (b + 3)%nat, (b + 4)%nat, (b + 5)%nat,
         (b + 6)%nat, (b + 7)%nat, (b + 8)%nat, (b + 9)%nat,
         (1 + 4 * i + 1)%nat, (1 + 4 * i + 2)%nat, (1 + 4 * i + 3)%nat,
         (price_buy dt).
  split; [exact Hvars|]. split.
  { unfold named.
    rewrite (Hv 1%nat), (Hv 2%nat), (Hv 3%nat), (Hv 4%nat), (Hv 5%nat),
      (Hv 6%nat) by lia.
    done. }
  split; [nodup_lia|]. split; [exact Hdc|].
  split; [exact Rdc|]. split; [exact Rac|]. split; [exact Hbuy|].
  rewrite Rpr, Hsell', <- Hsell, Hlen. reflexivity.
Qed.

(** C3.  The objective of a constructed model is a maximization whose
    coefficient is 1 on every [money] variable (one per period) and 0 on
    every other variable.  The two valuations of retained charge live in
    the money rows only: the coefficient of period [i]'s [cap] in period
    [i]'s money row is [chg_inter / capacity] when a later period
    exists and [chg_last / capacity] for the last period, a horizon of
    one period included. *)
Theorem objective_and_charge_value {G} (g0 : G) hw data ph ci cl h h' m :
  Model_init g0 hw data ph ci cl h = (h', inr m) ->
  obj_max (objective (solver m)) = true
  /\ length (moneys m) = length data
  /\ (forall v, coef_of (obj_coef (objective (solver m))) v
                = if decide (v ∈ moneys m) then 1 else 0)
  /\ (forall i d, data !! i = Some d ->
        exists pr cap row,
          c_price m !! i = Some pr /\ caps m !! i = Some cap
          /\ constraints (solver m) !! pr = Some row
          /\ GetCoefficient row cap
             = (if decide (S i = length data) then cl else ci)
               / capacity hw).
Proof.
  intros Hm.
  destruct (Model_init_built _ _ _ _ _ _ _ _ _ Hm) as (_ & dts & Hc & ->).
  pose proof (check_all_length _ _ _ _ _ Hc) as Hlen.
  destruct (built_lists g0 hw data ph ci cl dts)
    as (_ & _ & _ & _ & _ & _ & _ & Hmon).
  split; [done|]. split; [by rewrite Hmon, steps_length|]. split.
  - intros v. rewrite Hmon, built_objective. cbn [obj_coef]. unfold coef_of.
    case_decide as Hv.
    + apply steps_elem_of in Hv as (j & Hj & ->).
      replace (10 + 10 * j)%nat with (1 + 10 * j + 9)%nat by lia.
      by rewrite loop_obj_hit.
    + rewrite loop_obj_miss; [done|]. intros j Hj ->. apply Hv.
      apply steps_elem_of. exists j. split; [done | lia].
  - intros i d Hi.
    destruct (Model_init_period _ _ _ _ _ _ _ _ _ _ _ Hm Hi)
      as (_ & _ & dts' & dt & Hc' & _ & _ & Hdt).
    assert (dts' = dts) as -> by congruence.
    destruct (built_period g0 hw data ph ci cl dts i dt Hdt)
      as ((Hcap & _) & (_ & _ & _ & Hpr) & _ & _ & _ & _ & Rpr).
    eexists _, _, _. repeat split; [exact Hpr | exact Hcap | exact Rpr |].
    unfold GetCoefficient, coef_of, set_coef. cbn [con_coef].
    by rewrite lookup_insert_eq, Hlen.
Qed.

(** C10.  A point of the forecast whose two prices are equal is rewritten
    in the caller's heap by a successful construction: the object behind
    the same reference then holds 1.001 times its old [price_buy], its
    other fields as before; unless that price is zero the caller sees a
    different number. *)
Theorem forecast_mutated_in_place {G} (g0 : G) hw data ph ci cl h h' m d :
  Model_init g0 hw data ph ci cl h = (h', inr m) ->
  In d data ->
  price_buy (h d) == price_sell (h d) ->
  price_buy (h' d) == price_buy (h d) * 1.001
  /\ price_sell (h' d) = price_sell (h d)
  /\ load (h' d) = load (h d)
  /\ pv (h' d) = pv (h d)
  /\ (~ price_buy (h d) == 0 -> ~ price_buy (h' d) == price_buy (h d)).
Proof.
  intros Hm Hd He.
  destruct (Model_init_built _ _ _ _ _ _ _ _ _ Hm) as (_ & dts & Hc & _).
  destruct (check_all_buy _ _ _ _ _ Hc) as (_ & _ & Hb).
  destruct (check_all_frame _ _ _ _ _ d Hc) as (Hs & Hl & Hp).
  specialize (Hb d Hd He). repeat split; try done.
  intros Hnz E. rewrite E in Hb. lra.
Qed.

(** *** When the checks raise *)

Lemma tie_safe_spec h data l :
  tie_safe h data = true ->
  price_buy (h l) == price_sell (h l) -> price_buy (h l) < 0 ->
  (count_occ Nat.eq_dec data l <= 1)%nat.
Proof.
  intros Ht He Hl. destruct (in_dec Nat.eq_dec l data) as [Hin|Hin].
  - unfold tie_safe in Ht. rewrite forallb_forall in Ht.
    specialize (Ht l Hin). apply Qeq_bool_iff in He.
    apply Qlt_bool_iff in Hl. rewrite He, Hl in Ht. cbn in Ht.
    by apply Nat.leb_le.
  - apply (count_occ_not_In Nat.eq_dec) in Hin. lia.
Qed.

Lemma check_all_value_error data : forall i h h' e,
  check_all i data h = (h', inl e) -> exists j b s, e = ValueError j b s.
Proof.
  induction data as [|d rest IH]; intros i h h' e H; [done|].
  rewrite check_all_cons in H.
  pose proof (check_prices_cases i d h) as Hd.
  destruct (check_prices i d h) as [h1 [e1|dt]].
  - injection H as <- <-. inversion Hd; subst. by eexists _, _, _.
  - destruct (check_all (S i) rest h1) as [h2 [e2|dts]] eqn:Hr; [|done].
    injection H as <- <-. eauto.
Qed.

Lemma check_all_raises data : forall i h,
  (forall l, price_buy (h l) == price_sell (h l) -> price_buy (h l) < 0 ->
             (count_occ Nat.eq_dec data l <= 1)%nat) ->
  (exists e, (check_all i data h).2 = inl e)
  <-> (exists d, In d data /\ price_buy (h d) < price_sell (h d)).
Proof.
  induction data as [|d rest IH]; intros i h Hsafe.
  - split; [by intros [e ?] | by intros (d & [] & _)].
  - rewrite check_all_cons.
    pose proof (check_prices_cases i d h) as Hd.
    destruct (check_prices i d h) as [h1 [e1|dt]].
    + inversion Hd; subst. split; [|by eexists].
      intros _. exists d. split; [by left | done].
    + assert ((exists e, (check_all (S i) rest h1).2 = inl e)
              <-> exists e,
                  (match check_all (S i) rest h1 with
                   | (h', inl e) => (h', inl e)
                   | (h', inr dts) => (h', inr (dt :: dts))
                   end).2 = inl e) as <-.
      { destruct (check_all (S i) rest h1) as [h2 [e2|dts]]; cbn;
          split; intros [e He]; by eauto. }
      inversion Hd as [Heq Hh1 | | Hgt Hh1]; subst.
      * (* equal prices at [d] *)
        set (p := price_buy (h d)) in *.
        set (h1 := heap_set h d _).
        assert (forall l, l <> d -> h1 l = h l) as Hne
          by (intros; by apply heap_set_ne).
        assert (price_buy (h1 d) = p * 1.001
                /\ price_sell (h1 d) = price_sell (h d)) as [Hb1 Hs1]
          by (subst h1; by rewrite heap_set_eq).
        rewrite IH.
        -- split; intros (l & Hl & Hlt).
           ++ destruct (decide (l = d)) as [->|Hn].
              ** exfalso. rewrite Hb1, Hs1 in Hlt.
                 assert (p < 0) as Hneg by lra.
                 specialize (Hsafe d Heq Hneg).
                 rewrite count_occ_cons_eq in Hsafe by done.
                 apply (count_occ_In Nat.eq_dec) in Hl. lia.
              ** rewrite Hne in Hlt by done. exists l. split; [by right|done].
           ++ destruct Hl as [<-|Hl]; [fold p in Hlt; lra|].
              destruct (decide (l = d)) as [->|Hn]; [fold p in Hlt; lra|].
              exists l. by rewrite Hne.
        -- intros l He Hl. destruct (decide (l = d)) as [->|Hn].
           ++ rewrite Hb1, Hs1 in *. lra.
           ++ rewrite Hne in * by done. specialize (Hsafe l He Hl).
              by rewrite count_occ_cons_neq in Hsafe.
      * (* buy above sell at [d] *)
        rewrite IH.
        -- split; intros (l & Hl & Hlt).
           ++ exists l. split; [by right | done].
           ++ destruct Hl as [<-|Hl]; [lra|]. by exists l.
        -- intros l He Hl. specialize (Hsafe l He Hl).
           destruct (decide (d = l)) as [->|Hn].
           ++ rewrite count_occ_cons_eq in Hsafe by done. lia.
           ++ by rewrite count_occ_cons_neq in Hsafe.
Qed.

(** The guard away from the inputs on which it goes wrong.  With
    [per_hour] and [capacity] not zero and no object with equal negative
    prices listed twice, the constructor raises [ValueError] exactly
    when some point has [price_buy < price_sell] and returns a model
    otherwise; a point with equal prices then has its [price_buy]
    multiplied by 1.001 before its rows are built: the heap holds the
    new price and the money row of its period has minus that price on
    [g_in]. *)
Theorem arbitrage_guard {G} (g0 : G) hw data ph ci cl h :
  Qeq_bool ph 0 = false ->
  Qeq_bool (capacity hw) 0 = false ->
  tie_safe h data = true ->
  ((exists i b s,
      (Model_init g0 hw data ph ci cl h).2 = inl (ValueError i b s))
   <-> (exists d, In d data /\ price_buy (h d) < price_sell (h d)))
  /\ ((exists m, (Model_init g0 hw data ph ci cl h).2 = inr m)
      <-> ~ (exists d, In d data /\ price_buy (h d) < price_sell (h d)))
  /\ (forall h' m i d,
        Model_init g0 hw data ph ci cl h = (h', inr m) ->
        data !! i = Some d ->
        price_buy (h d) == price_sell (h d) ->
        price_buy (h' d) == price_buy (h d) * 1.001
        /\ exists pr g_in row,
             c_price m !! i = Some pr /\ g_ins m !! i = Some g_in
             /\ constraints (solver m) !! pr = Some row
             /\ GetCoefficient row g_in == - (price_buy (h d) * 1.001)).
Proof.
  intros Hph Hcap Hsafe.
  pose proof (check_all_raises data 0 h
                (fun l => tie_safe_spec h data l Hsafe)) as Hr.
  rewrite (Model_init_run g0 _ _ _ _ _ _ Hph Hcap).
  destruct (check_all 0 data h) as [h1 [e|dts]] eqn:Hc; cbn [snd] in *.
  - destruct (check_all_value_error _ _ _ _ _ Hc) as (j & b & s & ->).
    assert (exists d, In d data /\ price_buy (h d) < price_sell (h d))
      as Hex by (apply Hr; by eexists).
    repeat split; try done.
    + by eexists _, _, _.
    + by intros [m ?].
  - assert (~ exists d, In d data /\ price_buy (h d) < price_sell (h d))
      as Hno by (intros Hex; apply Hr in Hex as [e ?]; done).
    split; [|split].
    + split; [by intros (i & b & s & ?) | done].
    + split; [done | by eexists].
    + intros h' m i d Hm Hi He. injection Hm as <- <-.
      destruct (lookup_lt_is_Some_2 dts i) as [dt Hdt].
      { rewrite (check_all_length _ _ _ _ _ Hc).
        by apply lookup_lt_Some in Hi. }
      destruct (check_all_read _ _ _ _ _ _ _ _ Hc Hi Hdt)
        as (_ & _ & _ & Hbuy & Hpert & _).
      destruct (built_period g0 hw data ph ci cl dts i dt Hdt)
        as ((_ & Hgi & _) & (_ & _ & _ & Hpr) & _ & _ & _ & _ & Rpr).
      split; [by rewrite <- Hbuy, Hpert|].
      eexists _, _, _. repeat split; [exact Hpr | exact Hgi | exact Rpr |].
      unfold GetCoefficient, coef_of, set_coef, price_row. cbn [con_coef].
      rewrite lookup_insert_ne, lookup_insert_ne, lookup_insert_eq by lia.
      cbn. by rewrite Hpert.
Qed.

(** *** Dispatch *)

Section Dispatch.

Context {G : Type}.
Variable glop_solve :
  list MPVariable -> list MPConstraint -> MPObjective -> G -> G * ResultStatus.
Variable glop_value : G -> var -> Q.

Implicit Types (m : Model G) (s : Solver G).

Lemma reading_with_solver m s gi go c mo :
  reading glop_value (with_solver m s) (gi, go, c, mo)
  = ((glop_value (backend s) gi - glop_value (backend s) go) * per_hour m,
     glop_value (backend s) c / capacity (hardware m),
     glop_value (backend s) mo).
Proof. reflexivity. Qed.

Lemma resolve_run soc m :
  resolve glop_solve soc m = (with_solver m (resolved glop_solve soc m), inr tt).
Proof. reflexivity. Qed.

Lemma propose_run soc m gi go c mo :
  g_in m = Some gi -> g_out m = Some go -> cap m = Some c ->
  money m = Some mo -> Qeq_bool (capacity (hardware m)) 0 = false ->
  propose glop_solve glop_value soc m
  = (with_solver m (resolved glop_solve soc m),
     inr (reading glop_value (with_solver m (resolved glop_solve soc m)) (gi, go, c, mo))).
Proof.
  intros Hgi Hgo Hc Hmo Hcap. unfold propose.
  rewrite bind_assoc_run, resolve_run.
  unfold attr, value_of, get, pydiv, mbind, M_bind, mret, M_ret.
  change (g_in (with_solver m (resolved glop_solve soc m))) with (g_in m).
  rewrite Hgi.
  change (g_out (with_solver m (resolved glop_solve soc m))) with (g_out m).
  rewrite Hgo.
  change (cap (with_solver m (resolved glop_solve soc m))) with (cap m).
  rewrite Hc.
  change (hardware (with_solver m (resolved glop_solve soc m))) with (hardware m).
  rewrite Hcap.
  change (money (with_solver m (resolved glop_solve soc m))) with (money m).
  by rewrite Hmo.
Qed.

Lemma propose_unset soc m :
  g_in m = None ->
  exists e, (propose glop_solve glop_value soc m).2 = inl e.
Proof.
  intros Hgi. unfold propose. rewrite bind_assoc_run, resolve_run.
  unfold attr, mbind, M_bind.
  change (g_in (with_solver m (resolved glop_solve soc m))) with (g_in m).
  rewrite Hgi. by eexists.
Qed.

Lemma entry_run m gi go c mo :
  Qeq_bool (capacity (hardware m)) 0 = false ->
  entry glop_value gi go c mo m = (m, inr (reading glop_value m (gi, go, c, mo))).
Proof.
  intros Hcap.
  unfold entry, value_of, get, mbind, M_bind, mret, M_ret, pydiv.
  by rewrite Hcap.
Qed.

Lemma yield_entries_run m rows :
  Qeq_bool (capacity (hardware m)) 0 = false ->
  yield_entries glop_value rows m = (reading glop_value m <$> rows, None).
Proof.
  intros Hcap. induction rows as [|[[[gi go] c] mo] rows IH]; [done|].
  cbn [yield_entries]. rewrite (entry_run _ _ _ _ _ Hcap), IH. done.
Qed.

Lemma proposed_run soc m :
  Qeq_bool (capacity (hardware m)) 0 = false ->
  proposed glop_solve glop_value soc m
  = (with_solver m (resolved glop_solve soc m),
     (reading glop_value (with_solver m (resolved glop_solve soc m))
        <$> zip4 (g_ins m) (g_outs m) (caps m) (moneys m), None)).
Proof.
  intros Hcap. unfold proposed. rewrite resolve_run. cbn [fst].
  by rewrite yield_entries_run.
Qed.

Lemma zip4_steps n : forall a b c d,
  zip4 (steps 10 a n) (steps 10 b n) (steps 10 c n) (steps 10 d n)
  = (fun j => (a + 10 * j, b + 10 * j, c + 10 * j, d + 10 * j)%nat)
      <$> seq 0 n.
Proof.
  induction n as [|n IH]; intros a b c d; [done|].
  cbn [steps zip4 seq fmap list_fmap]. rewrite IH, !Nat.add_0_r.
  f_equal. rewrite <- fmap_S_seq, <- list_fmap_compose.
  apply list_fmap_ext. intros _ j _. unfold compose.
  assert (forall x, (x + 10 + 10 * j = x + 10 * S j)%nat) as E by lia.
  by rewrite !E.
Qed.

End Dispatch.

(** *** Feasibility of the init row *)

Lemma in_bounds_Fin a b y :
  in_bounds (Fin a) (Fin b) y = true <-> a <= y /\ y <= b.
Proof.
  unfold in_bounds, ext_leb. rewrite andb_true_iff, !Qle_bool_iff. done.
Qed.

Lemma feasible_head {G} mv vs mc cs o (g : G) x :
  feasible (mkSolver (mv :: vs) (mc :: cs) o g) x = true ->
  in_bounds (var_lb mv) (var_ub mv) (x 0%nat) = true
  /\ in_bounds (con_lb mc) (con_ub mc) (row_value mc x) = true.
Proof.
  unfold feasible. cbn [variables constraints imap forallb fst snd].
  rewrite !andb_true_iff. tauto.
Qed.

Lemma row_value_single lb ub v k x :
  row_value (mkCon lb ub (<[v := k]> ∅)) x = 0 + k * x v.
Proof.
  unfold row_value. cbn [con_coef].
  by rewrite insert_empty, map_fold_singleton.
Qed.

(** With the init row pinned outside the bounds of the init variable
    nothing is feasible. *)
Lemma rebound_infeasible {G} (m : Model G) soc x c name vs lb ub cs :
  variables (solver m)
  = mkVar (Fin (c * 0.05)) (Fin (c * 0.95)) name :: vs ->
  constraints (solver m) = mkCon lb ub (<[0%nat := 1]> ∅) :: cs ->
  constr_init m = 0%nat -> capacity (hardware m) = c -> ~ c == 0 ->
  soc < 0.05 \/ 0.95 < soc ->
  feasible (rebound soc m) x = false.
Proof.
  intros Hvs Hcs Hki Hhw Hcap Hsoc.
  destruct (feasible _ x) eqn:Hx; [exfalso | done].
  unfold rebound, SetUb, SetLb, on_constraint in Hx.
  cbn [fst variables constraints objective backend] in Hx.
  rewrite Hvs, Hcs, Hki, Hhw in Hx. cbn [alter list_alter] in Hx.
  apply feasible_head in Hx as [Hv Hc].
  unfold set_ub, set_lb in Hc. cbn [con_lb con_ub con_coef var_lb var_ub] in *.
  rewrite row_value_single in Hc.
  apply in_bounds_Fin in Hv as [Hv1 Hv2]. apply in_bounds_Fin in Hc as [Hc1 Hc2].
  set (y := x 0%nat) in *.
  assert (y == soc * c) as Hy by lra.
  assert (0.05 * c <= soc * c /\ soc * c <= 0.95 * c) as [H1 H2] by lra.
  assert (0 < c) as Hpos by lra.
  destruct Hsoc as [Hlo|Hhi]; nra.
Qed.

Section DispatchClaims.

Context {G : Type} (g0 : G).
Variable glop_solve :
  list MPVariable -> list MPConstraint -> MPObjective -> G -> G * ResultStatus.
Variable glop_value : G -> var -> Q.

Implicit Types (m : Model G) (s : Solver G).

(** A model built from a forecast that is not empty: its first-period
    attributes, and what the init row and variable look like. *)
Lemma built_nonempty hw data ph ci cl h h' m :
  Model_init g0 hw data ph ci cl h = (h', inr m) ->
  data <> [] ->
  Qeq_bool (capacity (hardware m)) 0 = false
  /\ hardware m = hw /\ per_hour m = ph
  /\ (g_in m = Some 8%nat /\ g_out m = Some 9%nat /\ cap m = Some 1%nat
      /\ money m = Some 10%nat)
  /\ (exists n, length data = S n
        /\ g_ins m = steps 10 8 (S n) /\ g_outs m = steps 10 9 (S n)
        /\ caps m = steps 10 1 (S n) /\ moneys m = steps 10 10 (S n))
  /\ cap_init m = 0%nat /\ constr_init m = 0%nat
  /\ (exists vs, variables (solver m)
                 = mkVar (Fin (capacity hw * 0.05)) (Fin (capacity hw * 0.95))
                         "b_init" :: vs)
  /\ (exists cs, constraints (solver m)
                 = mkCon (Fin 0) (Fin 0) (<[0%nat := 1]> ∅) :: cs).
Proof.
  intros Hm Hne.
  destruct (Model_init_built _ _ _ _ _ _ _ _ _ Hm)
    as (Hnz & dts & Hc & ->).
  destruct (Hnz Hne) as [Hph Hcap].
  pose proof (check_all_length _ _ _ _ _ Hc) as Hlen.
  destruct (built_lists g0 hw data ph ci cl dts)
    as (_ & _ & _ & _ & Hgi & Hgo & Hca & Hmo).
  destruct (built_first g0 hw data ph ci cl dts) as (Fgi & Fgo & Fca & Fmo).
  rewrite Hgi in Fgi. rewrite Hgo in Fgo. rewrite Hca in Fca.
  rewrite Hmo in Fmo.
  destruct (length dts) as [|n] eqn:Hn.
  { destruct data; [done | cbn in Hlen; lia]. }
  repeat split; try done.
  - exists n. by rewrite <- Hlen.
  - by eexists.
  - unfold built. rewrite Hn. cbn [solver constraints alter list_alter].
    replace (1 + 4 * n + 3)%nat with (S (4 * n + 3)) by lia.
    cbn [list_alter]. by eexists.
Qed.

(** C4.  On a model built from a forecast that is not empty,
    [propose(soc)] sets both bounds of the init row, which holds [cap_init]
    alone with coefficient 1, to [soc * capacity], leaves every other row,
    the variables and the objective as they are, solves, and returns
    [((g_in - g_out) * per_hour, cap / capacity, money)] read from the
    variables "gi0", "go0", "b0" and "pr0" of period 0. *)
Theorem propose_first_period hw data ph ci cl h h' m soc :
  Model_init g0 hw data ph ci cl h = (h', inr m) ->
  data <> [] ->
  exists gi go c mo,
    (g_ins m !! 0%nat = Some gi /\ g_outs m !! 0%nat = Some go
     /\ caps m !! 0%nat = Some c /\ moneys m !! 0%nat = Some mo)
    /\ (named m gi ("gi" +:+ pretty 0%nat) /\ named m go ("go" +:+ pretty 0%nat)
        /\ named m c ("b" +:+ pretty 0%nat)
        /\ named m mo ("pr" +:+ pretty 0%nat))
    /\ constraints (rebound soc m) !! constr_init m
       = Some (mkCon (Fin (soc * capacity hw)) (Fin (soc * capacity hw))
                 (<[cap_init m := 1]> ∅))
    /\ (forall k, k <> constr_init m ->
          constraints (rebound soc m) !! k = constraints (solver m) !! k)
    /\ variables (rebound soc m) = variables (solver m)
    /\ objective (rebound soc m) = objective (solver m)
    /\ propose glop_solve glop_value soc m
       = (with_solver m (resolved glop_solve soc m),
          inr ((glop_value (backend (resolved glop_solve soc m)) gi
                - glop_value (backend (resolved glop_solve soc m)) go) * ph,
               glop_value (backend (resolved glop_solve soc m)) c
               / capacity hw,
               glop_value (backend (resolved glop_solve soc m)) mo)).
Proof.
  intros Hm Hne.
  destruct (built_nonempty _ _ _ _ _ _ _ _ Hm Hne)
    as (Hcap & Hhw & Hph & (Hgi & Hgo & Hc & Hmo)
        & (n & Hn & Lgi & Lgo & Lc & Lmo) & Hci & Hki & _ & (cs & Hcs)).
  destruct data as [|d data']; [done|].
  destruct (Model_init_period _ _ _ _ _ _ _ _ _ 0%nat d Hm eq_refl)
    as (_ & _ & dts & dt & _ & Hb & _ & Hdt).
  exists 8%nat, 9%nat, 1%nat, 10%nat.
  split; [by rewrite Lgi, Lgo, Lc, Lmo|]. split.
  { subst m.
    destruct (built_period g0 hw (d :: data') ph ci cl dts 0%nat dt Hdt)
      as (_ & _ & Hv & _).
    unfold named. repeat split.
    - exact (f_equal (fmap (M:=option) var_name) (Hv 7%nat ltac:(lia))).
    - exact (f_equal (fmap (M:=option) var_name) (Hv 8%nat ltac:(lia))).
    - exact (f_equal (fmap (M:=option) var_name) (Hv 0%nat ltac:(lia))).
    - exact (f_equal (fmap (M:=option) var_name) (Hv 9%nat ltac:(lia))). }
  unfold rebound, SetUb, SetLb, on_constraint.
  cbn [constraints variables objective].
  rewrite Hki, Hci, Hhw, Hcs. repeat split.
  - intros [|k] Hk; [done | reflexivity].
  - rewrite (propose_run _ _ _ _ _ _ _ _ Hgi Hgo Hc Hmo Hcap).
    by rewrite reading_with_solver, Hhw, Hph.
Qed.

Lemma propose_state soc m :
  (propose glop_solve glop_value soc m).1
  = with_solver m (resolved glop_solve soc m).
Proof.
  unfold propose. rewrite bind_assoc_run, resolve_run.
  unfold attr, value_of, get, pydiv, raise, mbind, M_bind, mret, M_ret.
  change (g_in (with_solver m (resolved glop_solve soc m))) with (g_in m).
  destruct (g_in m); [|done].
  change (g_out (with_solver m (resolved glop_solve soc m))) with (g_out m).
  destruct (g_out m); [|done].
  change (cap (with_solver m (resolved glop_solve soc m))) with (cap m).
  destruct (cap m); [|done].
  destruct (Qeq_bool _ _); [done|].
  change (money (with_solver m (resolved glop_solve soc m))) with (money m).
  by destruct (money m).
Qed.

Lemma proposed_state soc m :
  (proposed glop_solve glop_value soc m).1
  = with_solver m (resolved glop_solve soc m).
Proof. reflexivity. Qed.

(** C8.  For every constructed model and every [soc], [propose] and
    [proposed] leave the model in the same state, and whatever
    [proposed(soc)] yields first is what [propose(soc)] returns; for a
    forecast that is not empty there is such a first element. *)
Theorem proposed_head_is_propose hw data ph ci cl h h' m soc :
  Model_init g0 hw data ph ci cl h = (h', inr m) ->
  (propose glop_solve glop_value soc m).1
  = (proposed glop_solve glop_value soc m).1
  /\ (forall t, head (proposed glop_solve glop_value soc m).2.1 = Some t ->
                (propose glop_solve glop_value soc m).2 = inr t)
  /\ (data <> [] ->
      exists t, head (proposed glop_solve glop_value soc m).2.1 = Some t).
Proof.
  intros Hm. split; [by rewrite propose_state, proposed_state|].
  destruct data as [|d data'].
  - cbn in Hm. injection Hm as <- <-. split; [by intros t | done].
  - destruct (built_nonempty _ _ _ _ _ _ _ _ Hm ltac:(done))
      as (Hcap & _ & _ & (Hgi & Hgo & Hc & Hmo)
          & (n & _ & Lgi & Lgo & Lc & Lmo) & _).
    rewrite (propose_run _ _ _ _ _ _ _ _ Hgi Hgo Hc Hmo Hcap).
    rewrite (proposed_run _ _ _ _ Hcap), Lgi, Lgo, Lc, Lmo.
    cbn [steps zip4 fmap list_fmap head fst snd].
    split; [by intros t [= <-] | by eexists].
Qed.

(** C6, as amended.  [propose] and [proposed] never raise for a model
    built from a forecast that is not empty, whatever status the solver
    reports: [propose] returns a tuple and [proposed] yields one tuple
    per period and ends normally.  The numbers are whatever the
    variables' [solution_value] gives after that solve. *)
Theorem dispatch_ignores_status hw data ph ci cl h h' m soc st :
  Model_init g0 hw data ph ci cl h = (h', inr m) ->
  data <> [] ->
  (Solve glop_solve (rebound soc m)).2 = st ->
  (exists t, (propose glop_solve glop_value soc m).2 = inr t)
  /\ (exists ts, (proposed glop_solve glop_value soc m).2 = (ts, None)
                 /\ length ts = length data).
Proof.
  intros Hm Hne _.
  destruct (built_nonempty _ _ _ _ _ _ _ _ Hm Hne)
    as (Hcap & _ & _ & (Hgi & Hgo & Hc & Hmo)
        & (n & Hn & Lgi & Lgo & Lc & Lmo) & _).
  split.
  - rewrite (propose_run _ _ _ _ _ _ _ _ Hgi Hgo Hc Hmo Hcap). by eexists.
  - rewrite (proposed_run _ _ _ _ Hcap). eexists. split; [done|].
    rewrite Lgi, Lgo, Lc, Lmo, zip4_steps, !length_fmap, length_seq. done.
Qed.

Lemma feasible_Solve s x :
  feasible (Solve glop_solve s).1 x = feasible s x.
Proof. reflexivity. Qed.

(** C9.  In a model built from a forecast that is not empty, [cap_init]
    is the variable "b_init" with bounds [0.05 * capacity] and
    [0.95 * capacity]; [propose] and [proposed] leave all variables as
    they are; and for [soc] below 0.05 or above 0.95 no assignment is
    feasible for the linear program they solve. *)
Theorem init_charge_window hw data ph ci cl h h' m :
  Model_init g0 hw data ph ci cl h = (h', inr m) ->
  data <> [] ->
  variables (solver m) !! cap_init m
  = Some (mkVar (Fin (capacity hw * 0.05)) (Fin (capacity hw * 0.95))
                "b_init")
  /\ forall soc,
       variables (solver (propose glop_solve glop_value soc m).1)
       = variables (solver m)
       /\ variables (solver (proposed glop_solve glop_value soc m).1)
          = variables (solver m)
       /\ (soc < 0.05 \/ 0.95 < soc ->
           forall x,
             feasible (solver (propose glop_solve glop_value soc m).1) x
             = false
             /\ feasible (solver (proposed glop_solve glop_value soc m).1) x
                = false).
Proof.
  intros Hm Hne.
  destruct (built_nonempty _ _ _ _ _ _ _ _ Hm Hne)
    as (Hcap & Hhw & _ & _ & _ & Hci & Hki & (vs & Hvs) & (cs & Hcs)).
  split; [by rewrite Hci, Hvs|]. intros soc.
  rewrite propose_state, proposed_state.
  split; [done|]. split; [done|]. intros Hsoc x.
  assert (feasible (resolved glop_solve soc m) x = false) as Hf; [|done].
  unfold resolved. rewrite feasible_Solve.
  rewrite Hhw in Hcap. apply Qeq_bool_false in Hcap.
  exact (rebound_infeasible m soc x (capacity hw) _ _ _ _ _
           Hvs Hcs Hki (f_equal capacity Hhw) Hcap Hsoc).
Qed.

End DispatchClaims.

(** *** The bounds of the load variable *)

Lemma load_variable_bounds {G} (g0 : G) hw data ph ci cl h h' m i d :
  Model_init g0 hw data ph ci cl h = (h', inr m) ->
  data !! i = Some d ->
  exists l_out,
    variables (solver m) !! l_out
    = Some (mkVar (Fin (load (h d))) (Fin (load (h d) / ph))
                  ("ld" +:+ pretty i)).
Proof.
  intros Hm Hi.
  destruct (Model_init_period _ _ _ _ _ _ _ _ _ _ _ Hm Hi)
    as (_ & _ & dts & dt & Hc & -> & _ & Hdt).
  destruct (built_period g0 hw data ph ci cl dts i dt Hdt)
    as (_ & _ & Hv & _).
  destruct (check_all_read _ _ _ _ _ _ _ _ Hc Hi Hdt) as (_ & <- & _).
  exists (1 + 10 * i + 6)%nat. by rewrite (Hv 6%nat) by lia.
Qed.

(** C7.  With two periods per hour and a forecast load of 500 the
    constructor gives the load variable "ld0" the lower bound 500 and the
    upper bound 250: the bounds differ and no value lies between them. *)
Theorem load_bounds_two_per_hour :
  Model_init tt hw_demo [0%nat] 2 0 0 heap_demo
  = (heap_demo, inr demo_model_half_hour)
  /\ variables (solver demo_model_half_hour) !! 7%nat
     = Some (mkVar (Fin 500) (Fin (500 / 2)) "ld0")
  /\ ~ 500 / 2 == 500
  /\ forall y, in_bounds (Fin 500) (Fin (500 / 2)) y = false.
Proof.
  split; [reflexivity|]. split; [reflexivity|]. split; [by intros [=]|].
  intros y. destruct (in_bounds _ _ y) eqn:Hy; [exfalso | done].
  apply andb_true_iff in Hy as [H1 H2]. cbn [ext_leb] in H1, H2.
  apply Qle_bool_iff in H1, H2.
  assert (500 / 2 == 250) as E by reflexivity. rewrite E in H2. lra.
Qed.

(** *** The theorems at the sample inputs *)

Lemma battery_balance_rows_witness :
  Model_init tt hw_demo [0%nat] 1 0 0 heap_demo = (heap_demo, inr demo_model)
  /\ [0%nat] !! 0%nat = Some 0%nat
  /\ exists bt cap,
       c_battery demo_model !! 0%nat = Some bt
       /\ caps demo_model !! 0%nat = Some cap.
Proof.
  split; [reflexivity|]. split; [reflexivity|].
  destruct (battery_balance_rows tt hw_demo [0%nat] 1 0 0 heap_demo heap_demo
              demo_model 0%nat 0%nat eq_refl eq_refl)
    as (bt & cp & c & bc & bd & Hbt & _ & Hc & _).
  exists bt, c. exact (conj Hbt Hc).
Defined.

Lemma bus_and_money_rows_witness :
  Model_init tt hw_demo [0%nat] 1 0 0 heap_demo = (heap_demo, inr demo_model)
  /\ [0%nat] !! 0%nat = Some 0%nat
  /\ exists dc ac pr,
       c_dc demo_model !! 0%nat = Some dc
       /\ c_ac demo_model !! 0%nat = Some ac
       /\ c_price demo_model !! 0%nat = Some pr.
Proof.
  split; [reflexivity|]. split; [reflexivity|].
  destruct (bus_and_money_rows tt hw_demo [0%nat] 1 0 0 heap_demo heap_demo
              demo_model 0%nat 0%nat eq_refl eq_refl)
    as (? & ? & ? & ? & ? & ? & ? & ? & ? & ? & dc & ac & pr & ? & _ & _ & _
        & (Hdc & Hac & Hpr) & _).
  exists dc, ac, pr. exact (conj Hdc (conj Hac Hpr)).
Defined.

Lemma objective_and_charge_value_witness :
  Model_init tt hw_demo [0%nat] 1 0 0 heap_demo = (heap_demo, inr demo_model)
  /\ obj_max (objective (solver demo_model)) = true
  /\ length (moneys demo_model) = 1%nat.
Proof.
  split; [reflexivity|].
  destruct (objective_and_charge_value tt hw_demo [0%nat] 1 0 0 heap_demo
              heap_demo demo_model eq_refl) as (Hmax & Hlen & _).
  exact (conj Hmax Hlen).
Defined.

Lemma propose_first_period_witness :
  Model_init tt hw_demo [0%nat] 1 0 0 heap_demo = (heap_demo, inr demo_model)
  /\ [0%nat] <> []
  /\ exists t, (propose glop_refusing glop_zero 0.5 demo_model).2 = inr t.
Proof.
  split; [reflexivity|]. split; [discriminate|].
  destruct (propose_first_period tt glop_refusing glop_zero hw_demo [0%nat]
              1 0 0 heap_demo heap_demo demo_model 0.5 eq_refl
              ltac:(discriminate))
    as (gi & go & c & mo & _ & _ & _ & _ & _ & _ & Hp).
  eexists. rewrite Hp. reflexivity.
Defined.

Lemma arbitrage_guard_witness :
  Qeq_bool 1 0 = false
  /\ Qeq_bool (capacity hw_demo) 0 = false
  /\ tie_safe heap_tie [0%nat] = true
  /\ exists m, (Model_init tt hw_demo [0%nat] 1 0 0 heap_tie).2 = inr m.
Proof.
  split; [reflexivity|]. split; [reflexivity|]. split; [reflexivity|].
  destruct (arbitrage_guard tt hw_demo [0%nat] 1 0 0 heap_tie
              eq_refl eq_refl eq_refl) as (_ & Hok & _).
  apply Hok. intros (d & _ & Hlt). revert Hlt.
  unfold heap_tie; cbn [price_buy price_sell]. apply Qlt_irrefl.
Defined.

Lemma dispatch_ignores_status_witness :
  Model_init tt hw_demo [0%nat] 1 0 0 heap_demo = (heap_demo, inr demo_model)
  /\ [0%nat] <> []
  /\ (Solve glop_refusing (rebound 0 demo_model)).2 = INFEASIBLE
  /\ exists t, (propose glop_refusing glop_zero 0 demo_model).2 = inr t.
Proof.
  split; [reflexivity|]. split; [discriminate|]. split; [reflexivity|].
  exact (proj1 (dispatch_ignores_status tt glop_refusing glop_zero hw_demo
                  [0%nat] 1 0 0 heap_demo heap_demo demo_model 0 INFEASIBLE
                  eq_refl ltac:(discriminate) eq_refl)).
Defined.

Lemma proposed_head_is_propose_witness :
  Model_init tt hw_demo [0%nat] 1 0 0 heap_demo = (heap_demo, inr demo_model)
  /\ (propose glop_refusing glop_zero 0.5 demo_model).1
     = (proposed glop_refusing glop_zero 0.5 demo_model).1.
Proof.
  split; [reflexivity|].
  exact (proj1 (proposed_head_is_propose tt glop_refusing glop_zero hw_demo
                  [0%nat] 1 0 0 heap_demo heap_demo demo_model 0.5 eq_refl)).
Defined.

Lemma init_charge_window_witness :
  Model_init tt hw_demo [0%nat] 1 0 0 heap_demo = (heap_demo, inr demo_model)
  /\ [0%nat] <> []
  /\ variables (solver demo_model) !! cap_init demo_model
     = Some (mkVar (Fin (capacity hw_demo * 0.05))
                   (Fin (capacity hw_demo * 0.95)) "b_init").
Proof.
  split; [reflexivity|]. split; [discriminate|].
  exact (proj1 (init_charge_window tt glop_refusing glop_zero hw_demo
                  [0%nat] 1 0 0 heap_demo heap_demo demo_model eq_refl
                  ltac:(discriminate))).
Defined.

Lemma forecast_mutated_in_place_witness :
  Model_init tt hw_demo [0%nat] 1 0 0 heap_tie
  = (heap_tie_after, inr demo_model_tie)
  /\ In 0%nat [0%nat]
  /\ price_buy (heap_tie 0%nat) == price_sell (heap_tie 0%nat)
  /\ price_buy (heap_tie_after 0%nat) == price_buy (heap_tie 0%nat) * 1.001.
Proof.
  split; [reflexivity|]. split; [left; reflexivity|].
  split; [reflexivity|].
  exact (proj1 (forecast_mutated_in_place tt hw_demo [0%nat] 1 0 0 heap_tie
                  heap_tie_after demo_model_tie 0%nat eq_refl
                  (or_introl eq_refl) (Qeq_refl _))).
Defined.

(** *** Inputs at which a claim fails as it is stated *)

(** C5.  One forecast object with the equal prices -1 and -1, listed
    twice.  Every point is a tie, so none has [price_buy < price_sell];
    the constructor nevertheless raises the [ValueError] of the check at
    index 1, with the prices -1.001 and -1.  The multiplication by 1.001
    of the first pass has moved the negative [price_buy] down, below
    [price_sell], and the second pass reads it from the same object.
    Two distinct objects with these prices are accepted. *)
Theorem negative_tie_listed_twice_raises :
  (forall d, In d [0%nat; 0%nat] ->
     price_buy (heap_negative_tie d) == price_sell (heap_negative_tie d)
     /\ ~ price_buy (heap_negative_tie d) < price_sell (heap_negative_tie d))
  /\ (Model_init tt hw_demo [0%nat; 0%nat] 1 0 0 heap_negative_tie).2
     = inl (ValueError 1 (-1 * 1.001) (-1))
  /\ -1 * 1.001 < price_buy (heap_negative_tie 0%nat)
  /\ -1 * 1.001 < -1
  /\ exists m,
       (Model_init tt hw_demo [0%nat; 1%nat] 1 0 0 heap_negative_tie).2
       = inr m.
Proof.
  split; [|split; [reflexivity|split; [reflexivity|split; [reflexivity|]]]].
  - intros d _. unfold heap_negative_tie; cbn [price_buy price_sell].
    split; [reflexivity | apply Qlt_irrefl].
  - rewrite (Model_init_run tt hw_demo [0%nat; 1%nat] 1 0 0
               heap_negative_tie eq_refl eq_refl).
    destruct (check_all 0 [0%nat; 1%nat] heap_negative_tie)
      as [h' [e|dts]] eqn:Hc; [discriminate Hc | by eexists].
Qed.

(** C6.  With [soc = 0] the linear program of the sample model has no
    feasible assignment and the engine reports [INFEASIBLE]; [propose]
    raises nothing and returns the zeros that the variables read. *)
Lemma propose_returns_on_infeasible :
  Model_init tt hw_demo [0%nat] 1 0 0 heap_demo = (heap_demo, inr demo_model)
  /\ (forall x, feasible (rebound 0 demo_model) x = false)
  /\ (Solve glop_refusing (rebound 0 demo_model)).2 = INFEASIBLE
  /\ (propose glop_refusing glop_zero 0 demo_model).2
     = inr ((0 - 0) * 1, 0 / 10000, 0).
Proof.
  split; [reflexivity|]. split; [|split; reflexivity].
  intros x.
  apply (rebound_infeasible demo_model 0 x (capacity hw_demo) "b_init"
           (loop_vars hw_demo 1 0%nat [heap_demo 0%nat]) (Fin 0) (Fin 0)
           (tail (constraints (solver demo_model))));
    try reflexivity.
  - by intros [=].
  - left. reflexivity.
Qed.

(** ** Further properties of the constructor *)

(** *** Forecasts without points, and divisions by zero *)

(** X1.  An empty forecast always gives a model, whatever the hardware
    and [per_hour] are.  On that model [propose] moves the bounds of the
    init row, solves and then raises [AttributeError] for [g_in], which
    was never set; [proposed] does the same to the solver, yields nothing
    and ends normally. *)
Theorem empty_forecast_dispatch {G} (g0 : G) glop_solve glop_value
    hw ph ci cl h :
  exists m,
    Model_init g0 hw [] ph ci cl h = (h, inr m)
    /\ length (variables (solver m)) = 1%nat
    /\ length (constraints (solver m)) = 1%nat
    /\ forall soc,
         propose glop_solve glop_value soc m
         = (with_solver m (resolved glop_solve soc m),
            inl (AttributeError "g_in"))
         /\ proposed glop_solve glop_value soc m
            = (with_solver m (resolved glop_solve soc m), ([], None)).
Proof. eexists. repeat split. Qed.

Lemma period_div_zero_exact {G} hw ph i d f h (s : Solver G) :
  Qeq_bool ph 0 = true ->
  exists s',
    period hw ph i d f (mkWorld h s)
    = (mkWorld (check_prices i d h).1 s',
       inl match (check_prices i d h).2 with
           | inl e => e
           | inr _ => ZeroDivisionError
           end).
Proof.
  intros Hph. destruct s as [vs cs o g].
  destruct (check_prices i d h) as [h1 [e|dt]] eqn:Hg; cbn [fst snd].
  - eexists. by apply period_guard_err.
  - unfold period. rewrite (run_guard_ok _ _ _ _ _ _ _ Hg).
    rewrite <- (app_nil_r vs). rewrite run_NumVar.
    rewrite (run_pydiv_zero _ _ _ _ Hph). by eexists.
Qed.

Lemma loop_cap_zero_exact {G} hw ph ci data i f (w : world G) p c :
  Qeq_bool (capacity hw) 0 = true ->
  f_pr f = Some p -> f_cap f = Some c ->
  loop hw ph ci data (S i) f w = (w, inl ZeroDivisionError).
Proof.
  intros Hcap Hp Hc. rewrite loop_unfold, bind_assoc_run. cbn [Nat.eqb].
  unfold patch, pydiv. by rewrite Hp, Hc, Hcap.
Qed.

Lemma loop_rest_zero_exact {G} hw ph ci d rest f h (s : Solver G) :
  Qeq_bool ph 0 = true \/ Qeq_bool (capacity hw) 0 = true ->
  exists s',
    loop_rest hw ph ci (d :: rest) 0 f (mkWorld h s)
    = (mkWorld (check_prices 0 d h).1 s',
       inl match (check_prices 0 d h).2 with
           | inl e => e
           | inr _ => ZeroDivisionError
           end).
Proof.
  intros Hz. unfold loop_rest. rewrite bind_assoc_run.
  destruct (Qeq_bool ph 0) eqn:Hph.
  - destruct (period_div_zero_exact hw ph 0 d f h s Hph) as [s' ->].
    by exists s'.
  - destruct Hz as [Hz|Hcap]; [done|]. destruct s as [vs cs o g].
    destruct (check_prices 0 d h) as [h1 [e|dt]] eqn:Hg; cbn [fst snd].
    + rewrite (period_guard_err _ _ _ _ _ _ _ _ _ Hg). by eexists.
    + rewrite (period_run _ _ _ _ _ _ _ _ _ _ _ _ Hph Hg).
      erewrite loop_cap_zero_exact; [by eexists | done | done | done].
Qed.

(** X2.  With [per_hour] zero or [capacity] zero and a forecast that is
    not empty, the constructor never returns a model and never looks
    beyond the first point: it raises the [ValueError] of the first
    point's check if that check fails, [ZeroDivisionError] otherwise, and
    the forecast objects are left as the first point's check left them. *)
Theorem zero_division_outcome {G} (g0 : G) hw d rest ph ci cl h :
  Qeq_bool ph 0 = true \/ Qeq_bool (capacity hw) 0 = true ->
  Model_init g0 hw (d :: rest) ph ci cl h
  = ((check_prices 0 d h).1,
     inl match (check_prices 0 d h).2 with
         | inl e => e
         | inr _ => ZeroDivisionError
         end).
Proof.
  intros Hz. unfold Model_init. rewrite _setup_unfold, bind_assoc_run.
  unfold world0.
  edestruct (fun s => @loop_rest_zero_exact G hw ph ci d rest frame0 h s Hz)
    as [s' ->].
  reflexivity.
Qed.

Lemma zero_division_outcome_witness :
  (Qeq_bool 0 0 = true \/ Qeq_bool (capacity hw_demo) 0 = true)
  /\ (Model_init tt hw_demo [0%nat; 1%nat] 0 0 0 heap_demo).2
     = inl ZeroDivisionError.
Proof.
  split; [left; reflexivity|].
  rewrite (zero_division_outcome tt hw_demo 0%nat [1%nat] 0 0 0 heap_demo
             (or_introl eq_refl)).
  reflexivity.
Defined.

(** *** Where the check raises, and what is written to the forecast *)

Lemma check_all_error_at data : forall i0 h h' i b s,
  check_all i0 data h = (h', inl (ValueError i b s)) ->
  exists j d dts,
    i = (i0 + j)%nat /\ data !! j = Some d
    /\ check_all i0 (take j data) h = (h', inr dts)
    /\ b = price_buy (h' d) /\ s = price_sell (h' d) /\ b < s.
Proof.
  induction data as [|d0 rest IH]; intros i0 h h' i b s H; [done|].
  rewrite check_all_cons in H.
  pose proof (check_prices_cases i0 d0 h) as Hd.
  destruct (check_prices i0 d0 h) as [h1 [e1|dt]] eqn:Hc.
  - injection H as -> ->. inversion Hd as [ | Hlt Hh | ]; subst.
    exists 0%nat, d0, []. rewrite Nat.add_0_r. by repeat split.
  - destruct (check_all (S i0) rest h1) as [h2 [e2|dts]] eqn:Hr; [|done].
    injection H as -> ->.
    destruct (IH _ _ _ _ _ _ Hr) as (j & d & dts & -> & Hj & Ht & Hb & Hs & Hlt).
    exists (S j), d, (dt :: dts). repeat split; try done; [lia|].
    cbn [take]. by rewrite check_all_cons, Hc, Ht.
Qed.

Lemma value_error_zero_case {G} (g0 : G) hw d rest ph ci cl h h' i b s :
  Qeq_bool ph 0 = true \/ Qeq_bool (capacity hw) 0 = true ->
  Model_init g0 hw (d :: rest) ph ci cl h = (h', inl (ValueError i b s)) ->
  i = 0%nat /\ h' = h /\ b = price_buy (h d) /\ s = price_sell (h d)
  /\ b < s.
Proof.
  intros Hz Hm. rewrite zero_division_outcome in Hm by done.
  pose proof (check_prices_cases 0 d h) as Hd.
  destruct (check_prices 0 d h) as [h1 [e|dt]]; cbn [fst snd] in Hm; [|done].
  injection Hm as -> ->. by inversion Hd; subst.
Qed.

(** X3.  A [ValueError] of the constructor names a point of the
    forecast: its index, and the two prices the object holds when the
    constructor is left, the buy price below the sell price.  No point
    before it had [price_buy < price_sell] when the constructor was
    called. *)
Theorem value_error_names_point {G} (g0 : G) hw data ph ci cl h h' i b s :
  Model_init g0 hw data ph ci cl h = (h', inl (ValueError i b s)) ->
  exists d,
    data !! i = Some d
    /\ b = price_buy (h' d) /\ s = price_sell (h' d) /\ b < s
    /\ forall j d', (j < i)%nat -> data !! j = Some d' ->
         ~ price_buy (h d') < price_sell (h d').
Proof.
  intros Hm. destruct data as [|d rest]; [done|].
  destruct (Qeq_bool ph 0) eqn:Hph;
    [|destruct (Qeq_bool (capacity hw) 0) eqn:Hcap].
  1,2: destruct (value_error_zero_case g0 hw d rest ph ci cl h h' i b s)
         as (-> & -> & -> & -> & Hlt); [auto | done |];
       exists d; repeat split; try done; intros; lia.
  rewrite (Model_init_run _ _ _ _ _ _ _ Hph Hcap) in Hm.
  destruct (check_all 0 (d :: rest) h) as [h2 [e|dts]] eqn:Hc; [|done].
  injection Hm as -> ->.
  destruct (check_all_error_at _ _ _ _ _ _ _ Hc)
    as (j & d1 & dts & -> & Hj & Ht & Hb & Hs & Hlt).
  exists d1. repeat split; try done.
  intros j' d' Hj' Hd'. cbn in Hj'.
  destruct (check_all_buy _ _ _ _ _ Ht) as (Hok & _).
  apply Hok, list_elem_of_In, list_elem_of_lookup. exists j'.
  by rewrite lookup_take_lt.
Qed.

Lemma value_error_names_point_witness :
  Model_init tt hw_demo [0%nat; 0%nat] 1 0 0 heap_negative_tie
  = ((Model_init tt hw_demo [0%nat; 0%nat] 1 0 0 heap_negative_tie).1,
     inl (ValueError 1 (-1 * 1.001) (-1)))
  /\ exists d, [0%nat; 0%nat] !! 1%nat = Some d.
Proof.
  split; [reflexivity|].
  destruct (value_error_names_point tt hw_demo [0%nat; 0%nat] 1 0 0
              heap_negative_tie
              (Model_init tt hw_demo [0%nat; 0%nat] 1 0 0 heap_negative_tie).1
              1%nat (-1 * 1.001) (-1) eq_refl) as (d & Hd & _).
  exists d. exact Hd.
Defined.

(** What any run of the checks, raising or not, does to [price_buy]. *)
Lemma check_all_buy_any data : forall i h h' r l,
  check_all i data h = (h', r) ->
  price_buy (h' l) = price_buy (h l)
  \/ (In l data /\ price_buy (h l) == price_sell (h l)
      /\ price_buy (h' l) == price_buy (h l) * 1.001).
Proof.
  induction data as [|d rest IH]; intros i h h' r l H.
  - injection H as <- <-. by left.
  - rewrite check_all_cons in H.
    pose proof (check_prices_cases i d h) as Hd.
    destruct (check_prices i d h) as [h1 [e|dt]] eqn:Hc.
    + injection H as <- <-. inversion Hd; subst. by left.
    + assert (exists r', check_all (S i) rest h1 = (h', r')) as [r' Hr].
      { destruct (check_all (S i) rest h1) as [h2 [e2|dts]];
          injection H as <- <-; by eexists. }
      clear H. specialize (IH _ _ _ _ l Hr).
      inversion Hd as [Heq Hh1 | | Hgt Hh1]; subst.
      * destruct (decide (l = d)) as [->|Hn].
        -- right. rewrite heap_set_eq in IH; cbn in IH.
           split; [by left|]. split; [done|].
           destruct IH as [E|(_ & E1 & E2)]; [by rewrite E|].
           rewrite E2. lra.
        -- rewrite heap_set_ne in IH by done.
           destruct IH as [E|(E0 & E1 & E2)]; [by left|].
           right. split; [by right | done].
      * destruct IH as [E|(E0 & E1 & E2)]; [by left|].
        right. split; [by right | done].
Qed.

(** The forecast objects after the constructor are those after the
    checks of some points of the forecast, the first one included. *)
Lemma Model_init_heap {G} (g0 : G) hw data ph ci cl h :
  exists pre r,
    (forall l, In l pre -> In l data)
    /\ match data with [] => pre = [] | d :: _ => exists t, pre = d :: t end
    /\ check_all 0 pre h = ((Model_init g0 hw data ph ci cl h).1, r).
Proof.
  destruct data as [|d rest].
  - exists [], (inr []). by repeat split.
  - destruct (Qeq_bool ph 0) eqn:Hph;
      [|destruct (Qeq_bool (capacity hw) 0) eqn:Hcap].
    1,2: rewrite zero_division_outcome by auto; cbn [fst];
      exists [d], (check_all 0 [d] h).2;
      (split; [by intros l [<-|[]]; left|]); (split; [by eexists|]);
      rewrite check_all_cons;
      destruct (check_prices 0 d h) as [h1 [e|dt]]; reflexivity.
    rewrite (Model_init_run _ _ _ _ _ _ _ Hph Hcap).
    exists (d :: rest), (check_all 0 (d :: rest) h).2.
    split; [done|]. split; [by eexists|].
    by destruct (check_all 0 (d :: rest) h) as [h2 [e|dts]].
Qed.

(** X4.  Whatever its outcome, the constructor never writes to
    [price_sell], [load] or [pv] of any forecast object, and it changes
    [price_buy] only of objects that are in the forecast with equal
    prices, to 1.001 times the old value; objects outside the forecast
    are untouched. *)
Theorem forecast_frame {G} (g0 : G) hw data ph ci cl h l :
  let h' := (Model_init g0 hw data ph ci cl h).1 in
  price_sell (h' l) = price_sell (h l)
  /\ load (h' l) = load (h l)
  /\ pv (h' l) = pv (h l)
  /\ (price_buy (h' l) = price_buy (h l)
      \/ (In l data /\ price_buy (h l) == price_sell (h l)
          /\ price_buy (h' l) == price_buy (h l) * 1.001))
  /\ (~ In l data -> h' l = h l).
Proof.
  intros h'. subst h'.
  destruct (Model_init_heap g0 hw data ph ci cl h) as (pre & r & Hpre & _ & Hc).
  destruct (check_all_frame _ _ _ _ _ l Hc) as (Hs & Hl & Hp).
  pose proof (check_all_buy_any _ _ _ _ _ l Hc) as Hb.
  repeat split; try done.
  - destruct Hb as [E|(Hin & E)]; [by left | right; auto].
  - intros Hnot. destruct Hb as [E|(Hin & _)]; [|by apply Hpre in Hin].
    destruct ((Model_init g0 hw data ph ci cl h).1 l), (h l); cbn in *.
    congruence.
Qed.

(** X5.  If the first point of the forecast has equal prices its
    [price_buy] is multiplied by 1.001 in the caller's object whatever
    happens next, also when the constructor then raises. *)
Theorem first_tie_is_written {G} (g0 : G) hw d rest ph ci cl h :
  price_buy (h d) == price_sell (h d) ->
  price_buy ((Model_init g0 hw (d :: rest) ph ci cl h).1 d)
  == price_buy (h d) * 1.001.
Proof.
  intros Heq.
  destruct (Model_init_heap g0 hw (d :: rest) ph ci cl h)
    as (pre & r & _ & (t & ->) & Hc).
  set (H' := (Model_init g0 hw (d :: rest) ph ci cl h).1) in *.
  rewrite check_all_cons in Hc.
  pose proof (check_prices_cases 0 d h) as Hd.
  destruct (check_prices 0 d h) as [h1 [e|dt]] eqn:Hg;
    inversion Hd as [He Hh1 | Hlt | Hgt Hh1]; subst; try lra.
  assert (exists r', check_all 1 t
            (heap_set h d (mkFutureData (price_buy (h d) * 1.001)
                             (price_sell (h d)) (load (h d)) (pv (h d))))
          = (H', r')) as [r' Hr].
  { destruct (check_all 1 t _) as [h2 [e2|dts]];
      injection Hc as <- <-; by eexists. }
  destruct (check_all_buy_any _ _ _ _ _ d Hr) as [E|(_ & E1 & E2)];
    rewrite heap_set_eq in *; cbn in *.
  - by rewrite E.
  - rewrite E2. lra.
Qed.

Lemma first_tie_is_written_witness :
  price_buy (heap_tie 0%nat) == price_sell (heap_tie 0%nat)
  /\ (Model_init tt hw_demo [0%nat; 1%nat] 0 0 0 heap_tie).2
     = inl ZeroDivisionError
  /\ price_buy ((Model_init tt hw_demo [0%nat; 1%nat] 0 0 0 heap_tie).1 0%nat)
     == price_buy (heap_tie 0%nat) * 1.001.
Proof.
  split; [reflexivity|]. split; [reflexivity|].
  exact (first_tie_is_written tt hw_demo 0%nat [1%nat] 0 0 0 heap_tie
           (Qeq_refl _)).
Defined.

(** X6.  The check does not keep [price_buy >= price_sell]: a point with
    equal negative prices that is listed once passes, and the
    multiplication by 1.001 leaves its [price_buy] strictly below its
    [price_sell] in the model that is returned. *)
Theorem negative_tie_is_accepted {G} (g0 : G) hw data ph ci cl h d :
  Qeq_bool ph 0 = false ->
  Qeq_bool (capacity hw) 0 = false ->
  tie_safe h data = true ->
  (forall l, In l data -> ~ price_buy (h l) < price_sell (h l)) ->
  In d data ->
  price_buy (h d) == price_sell (h d) ->
  price_buy (h d) < 0 ->
  exists h' m,
    Model_init g0 hw data ph ci cl h = (h', inr m)
    /\ price_buy (h' d) < price_sell (h' d).
Proof.
  intros Hph Hcap Hsafe Hok Hd Heq Hneg.
  rewrite (Model_init_run _ _ _ _ _ _ _ Hph Hcap).
  pose proof (check_all_raises data 0 h
                (fun l => tie_safe_spec h data l Hsafe)) as Hr.
  destruct (check_all 0 data h) as [h' [e|dts]] eqn:Hc.
  - exfalso. destruct (proj1 Hr) as (l & Hl & Hlt); [by eexists|].
    by apply (Hok l).
  - eexists _, _. split; [done|].
    destruct (check_all_buy _ _ _ _ _ Hc) as (_ & _ & Hb).
    destruct (check_all_frame _ _ _ _ _ d Hc) as (-> & _).
    rewrite (Hb d Hd Heq). lra.
Qed.

Lemma negative_tie_is_accepted_witness :
  Qeq_bool 1 0 = false
  /\ Qeq_bool (capacity hw_demo) 0 = false
  /\ tie_safe heap_negative_tie [0%nat] = true
  /\ exists h' m,
       Model_init tt hw_demo [0%nat] 1 0 0 heap_negative_tie = (h', inr m)
       /\ price_buy (h' 0%nat) < price_sell (h' 0%nat).
Proof.
  split; [reflexivity|]. split; [reflexivity|]. split; [reflexivity|].
  apply (negative_tie_is_accepted tt hw_demo [0%nat] 1 0 0
           heap_negative_tie 0%nat eq_refl eq_refl eq_refl).
  - intros l _. unfold heap_negative_tie; cbn [price_buy price_sell].
    apply Qlt_irrefl.
  - left; reflexivity.
  - reflexivity.
  - reflexivity.
Defined.

(** *** Shape of the model *)

Lemma steps_Forall_lt k b n bound :
  (b + k * n < bound + k)%nat ->
  Forall (fun v => (v < bound)%nat) (steps k b n).
Proof.
  intros Hb. apply Forall_lookup. intros j v Hj.
  apply steps_lookup_inv in Hj as [Hj ->]. nia.
Qed.

(** X7.  A model returned for a forecast of [N] points has [1 + 10 N]
    variables and [1 + 4 N] rows; each of its eight lists of handles has
    [N] entries, all of them handles of existing variables or rows; and
    [g_in], [g_out], [cap] and [money] are the first entries of their
    lists. *)
Theorem model_shape {G} (g0 : G) hw data ph ci cl h h' m :
  Model_init g0 hw data ph ci cl h = (h', inr m) ->
  let N := length data in
  let nv := length (variables (solver m)) in
  let nc := length (constraints (solver m)) in
  nv = (1 + 10 * N)%nat /\ nc = (1 + 4 * N)%nat
  /\ Forall (fun l => length l = N /\ Forall (fun v => (v < nv)%nat) l)
       [g_ins m; g_outs m; caps m; moneys m]
  /\ Forall (fun l => length l = N /\ Forall (fun c => (c < nc)%nat) l)
       [c_battery m; c_dc m; c_ac m; c_price m]
  /\ g_in m = head (g_ins m) /\ g_out m = head (g_outs m)
  /\ cap m = head (caps m) /\ money m = head (moneys m).
Proof.
  intros Hm N nv nc.
  destruct (Model_init_built _ _ _ _ _ _ _ _ _ Hm) as (_ & dts & Hc & ->).
  pose proof (check_all_length _ _ _ _ _ Hc) as Hlen.
  destruct (built_lists g0 hw data ph ci cl dts)
    as (Ebt & Edc & Eac & Epr & Egi & Ego & Eca & Emo).
  assert (nv = (1 + 10 * N)%nat) as Hnv.
  { subst nv N. rewrite built_variables. cbn [length].
    rewrite loop_vars_length, Hlen. lia. }
  assert (nc = (1 + 4 * N)%nat) as Hnc.
  { subst nc N. unfold built. cbn [solver constraints].
    destruct (length dts) eqn:E; rewrite ?length_alter; cbn [length];
      rewrite loop_rows_length, <- Hlen, E; lia. }
  split; [done|]. split; [done|].
  split; [|split; [|apply built_first]].
  - rewrite Egi, Ego, Eca, Emo, Hlen. fold N.
    repeat (apply Forall_cons; split;
            [split; [apply steps_length | apply steps_Forall_lt; lia]|]).
    apply Forall_nil_2.
  - rewrite Ebt, Edc, Eac, Epr, Hlen. fold N.
    repeat (apply Forall_cons; split;
            [split; [apply steps_length | apply steps_Forall_lt; lia]|]).
    apply Forall_nil_2.
Qed.

Lemma model_shape_witness :
  Model_init tt hw_demo [0%nat] 1 0 0 heap_demo = (heap_demo, inr demo_model)
  /\ length (variables (solver demo_model)) = 11%nat
  /\ length (constraints (solver demo_model)) = 5%nat.
Proof.
  split; [reflexivity|].
  destruct (model_shape tt hw_demo [0%nat] 1 0 0 heap_demo heap_demo
              demo_model eq_refl) as (Hv & Hc & _).
  exact (conj Hv Hc).
Defined.

(** X8.  The ten variables of period [i], in the order of their
    creation from the period's [cap] on, with their names and bounds:
    the charge between [capacity * batt_min_soc] and
    [capacity * batt_max_soc], the flows between 0 and their limit
    divided by [per_hour], the load between [load] and [load / per_hour],
    [money] unbounded. *)
Theorem period_variables {G} (g0 : G) hw data ph ci cl h h' m i d :
  Model_init g0 hw data ph ci cl h = (h', inr m) ->
  data !! i = Some d ->
  exists b,
    (caps m !! i = Some b /\ g_ins m !! i = Some (b + 7)%nat
     /\ g_outs m !! i = Some (b + 8)%nat /\ moneys m !! i = Some (b + 9)%nat)
    /\ variables (solver m) !! b
       = Some (mkVar (Fin (capacity hw * batt_min_soc hw))
                     (Fin (capacity hw * batt_max_soc hw)) ("b" +:+ pretty i))
    /\ variables (solver m) !! (b + 1)%nat
       = Some (mkVar (Fin 0) (Fin (batt_max_chg hw / ph)) ("bc" +:+ pretty i))
    /\ variables (solver m) !! (b + 2)%nat
       = Some (mkVar (Fin 0) (Fin (batt_max_dis hw / ph)) ("bd" +:+ pretty i))
    /\ variables (solver m) !! (b + 3)%nat
       = Some (mkVar (Fin 0) (Fin (pv (h d) / ph)) ("pv" +:+ pretty i))
    /\ variables (solver m) !! (b + 4)%nat
       = Some (mkVar (Fin 0) (Fin (inv_max_chg hw / ph)) ("ic" +:+ pretty i))
    /\ variables (solver m) !! (b + 5)%nat
       = Some (mkVar (Fin 0) (Fin (inv_max_dis hw / ph)) ("id" +:+ pretty i))
    /\ variables (solver m) !! (b + 6)%nat
       = Some (mkVar (Fin (load (h d))) (Fin (load (h d) / ph))
                     ("ld" +:+ pretty i))
    /\ variables (solver m) !! (b + 7)%nat
       = Some (mkVar (Fin 0) (Fin (grid_max_in hw / ph)) ("gi" +:+ pretty i))
    /\ variables (solver m) !! (b + 8)%nat
       = Some (mkVar (Fin 0) (Fin (grid_max_out hw / ph)) ("go" +:+ pretty i))
    /\ variables (solver m) !! (b + 9)%nat
       = Some (mkVar NegInf PosInf ("pr" +:+ pretty i)).
Proof.
  intros Hm Hi.
  destruct (Model_init_period _ _ _ _ _ _ _ _ _ _ _ Hm Hi)
    as (_ & _ & dts & dt & Hc & -> & _ & Hdt).
  destruct (built_period g0 hw data ph ci cl dts i dt Hdt)
    as (Hl & _ & Hv & _).
  destruct (check_all_read _ _ _ _ _ _ _ _ Hc Hi Hdt) as (_ & <- & <- & _).
  exists (1 + 10 * i)%nat. split; [exact Hl|].
  rewrite <- (Nat.add_0_r (1 + 10 * i)) at 1.
  rewrite (Hv 0%nat), (Hv 1%nat), (Hv 2%nat), (Hv 3%nat), (Hv 4%nat),
    (Hv 5%nat), (Hv 6%nat), (Hv 7%nat), (Hv 8%nat), (Hv 9%nat) by lia.
  repeat split.
Qed.

Lemma period_variables_witness :
  Model_init tt hw_demo [0%nat] 1 0 0 heap_demo = (heap_demo, inr demo_model)
  /\ [0%nat] !! 0%nat = Some 0%nat
  /\ exists b, caps demo_model !! 0%nat = Some b.
Proof.
  split; [reflexivity|]. split; [reflexivity|].
  destruct (period_variables tt hw_demo [0%nat] 1 0 0 heap_demo heap_demo
              demo_model 0%nat 0%nat eq_refl eq_refl) as (b & (Hb & _) & _).
  exists b. exact Hb.
Defined.

(** ** Further properties of the dispatch *)

(** X9.  A dispatch call leaves nothing behind in the linear program but
    the bounds of the init row, and the next call overwrites them: after
    [propose(soc1)] or [proposed(soc1)] on any model, the variables, rows
    and objective that a call with [soc2] solves are those it would have
    solved without the earlier call. *)
Theorem redispatch_overwrites {G} glop_solve glop_value (m : Model G)
    soc1 soc2 :
  let m1 := (propose glop_solve glop_value soc1 m).1 in
  let m2 := (proposed glop_solve glop_value soc1 m).1 in
  (variables (rebound soc2 m1) = variables (rebound soc2 m)
   /\ constraints (rebound soc2 m1) = constraints (rebound soc2 m)
   /\ objective (rebound soc2 m1) = objective (rebound soc2 m))
  /\ m2 = m1
  /\ with_solver m1 (solver m) = m.
Proof.
  intros m1 m2. subst m1 m2. rewrite propose_state, proposed_state.
  split; [|split; [done | by destruct m]].
  unfold rebound, resolved, Solve, rebound, SetUb, SetLb, on_constraint.
  cbn [fst variables constraints objective backend].
  change (constr_init (with_solver m ?s)) with (constr_init m).
  change (hardware (with_solver m ?s)) with (hardware m).
  change (solver (with_solver m ?s)) with s.
  cbn [variables constraints objective].
  repeat split. rewrite !list_alter_alter_eq.
  by apply list_alter_ext.
Qed.

(** X10.  On a model built from a forecast that is not empty,
    [proposed(soc)] yields the periods in forecast order and ends
    normally: its [j]-th tuple is read, after the one solve, from the
    [j]-th entries of [g_ins], [g_outs], [caps] and [moneys]. *)
Theorem proposed_in_forecast_order {G} (g0 : G) glop_solve glop_value
    hw data ph ci cl h h' m soc :
  Model_init g0 hw data ph ci cl h = (h', inr m) ->
  data <> [] ->
  exists ts,
    (proposed glop_solve glop_value soc m).2 = (ts, None)
    /\ length ts = length data
    /\ forall j gi go c mo,
         g_ins m !! j = Some gi -> g_outs m !! j = Some go ->
         caps m !! j = Some c -> moneys m !! j = Some mo ->
         ts !! j
         = Some (reading glop_value
                   (with_solver m (resolved glop_solve soc m))
                   (gi, go, c, mo)).
Proof.
  intros Hm Hne.
  destruct (built_nonempty _ _ _ _ _ _ _ _ _ Hm Hne)
    as (Hcap & _ & _ & _ & (n & Hn & Lgi & Lgo & Lc & Lmo) & _).
  rewrite (proposed_run _ _ _ _ Hcap). eexists. split; [done|].
  rewrite Lgi, Lgo, Lc, Lmo, zip4_steps. split.
  - by rewrite !length_fmap, length_seq.
  - intros j gi go c mo Hgi Hgo Hc Hmo.
    apply steps_lookup_inv in Hgi as [Hj ->].
    apply steps_lookup_inv in Hgo as [_ ->].
    apply steps_lookup_inv in Hc as [_ ->].
    apply steps_lookup_inv in Hmo as [_ ->].
    rewrite !list_lookup_fmap, lookup_seq_lt by done. reflexivity.
Qed.

Lemma proposed_in_forecast_order_witness :
  Model_init tt hw_demo [0%nat] 1 0 0 heap_demo = (heap_demo, inr demo_model)
  /\ [0%nat] <> []
  /\ exists ts, (proposed glop_refusing glop_zero 0.5 demo_model).2
                = (ts, None).
Proof.
  split; [reflexivity|]. split; [discriminate|].
  destruct (proposed_in_forecast_order tt glop_refusing glop_zero hw_demo
              [0%nat] 1 0 0 heap_demo heap_demo demo_model 0.5 eq_refl
              ltac:(discriminate)) as (ts & Hts & _).
  exists ts. exact Hts.
Defined.

(** ** What every feasible assignment satisfies *)

Lemma feasible_lookup {G} (s : Solver G) x :
  feasible s x = true ->
  (forall v mv, variables s !! v = Some mv ->
     in_bounds (var_lb mv) (var_ub mv) (x v) = true)
  /\ (forall c mc, constraints s !! c = Some mc ->
        in_bounds (con_lb mc) (con_ub mc) (row_value mc x) = true).
Proof.
  unfold feasible. rewrite andb_true_iff, !forallb_forall.
  intros [Hv Hc]. split.
  - intros v mv Hl. apply (Hv (v, mv)), list_elem_of_In, list_elem_of_lookup.
    exists v. by rewrite list_lookup_imap, Hl.
  - intros c mc Hl. apply Hc, list_elem_of_In, list_elem_of_lookup. eauto.
Qed.

Lemma in_bounds_zero y : in_bounds (Fin 0) (Fin 0) y = true -> y == 0.
Proof. intros H. apply in_bounds_Fin in H. lra. Qed.

(** The program that a dispatch call solves: same variables, same rows
    but for the bounds of the init row. *)
Lemma feasible_rebound {G} (m : Model G) soc x :
  feasible (rebound soc m) x = true ->
  (forall v mv, variables (solver m) !! v = Some mv ->
     in_bounds (var_lb mv) (var_ub mv) (x v) = true)
  /\ (forall c mc, c <> constr_init m ->
        constraints (solver m) !! c = Some mc ->
        in_bounds (con_lb mc) (con_ub mc) (row_value mc x) = true)
  /\ (forall mc, constraints (solver m) !! constr_init m = Some mc ->
        row_value mc x == soc * capacity (hardware m)).
Proof.
  intros Hf. apply feasible_lookup in Hf as [Hv Hc].
  split; [exact Hv|]. split.
  - intros c mc Hne Hl. apply (Hc c).
    unfold rebound, SetUb, SetLb, on_constraint. cbn [constraints].
    by rewrite !list_lookup_alter_ne.
  - intros mc Hl.
    specialize (Hc (constr_init m)
                  (set_ub (Fin (soc * capacity (hardware m)))
                     (set_lb (Fin (soc * capacity (hardware m))) mc))).
    unfold rebound, SetUb, SetLb, on_constraint in Hc. cbn [constraints] in Hc.
    rewrite !list_lookup_alter_eq, Hl in Hc. specialize (Hc eq_refl).
    apply in_bounds_Fin in Hc. unfold row_value in *. cbn in Hc. lra.
Qed.

Lemma row_value_empty lb ub x : row_value (mkCon lb ub ∅) x = 0.
Proof. unfold row_value. cbn [con_coef]. apply map_fold_empty. Qed.

Lemma row_value_insert lb ub k v (mp : gmap nat Q) x :
  mp !! k = None ->
  row_value (mkCon lb ub (<[k := v]> mp)) x
  == row_value (mkCon lb ub mp) x + v * x k.
Proof.
  intros Hk. unfold row_value. cbn [con_coef].
  apply (map_fold_insert Qeq (fun v k acc => acc + k * x v)); [| |done].
  - intros j z a b Hab. by rewrite Hab.
  - intros. ring.
Qed.

Ltac row_value_steps :=
  repeat (rewrite row_value_insert
            by (rewrite ?lookup_insert_ne by lia; apply lookup_empty));
  rewrite row_value_empty.

Lemma battery_row_value hw cp b x :
  (cp < b)%nat ->
  row_value (battery_row hw cp b) x
  == x cp + batt_eff_chg hw * x (b + 1)%nat - x (b + 2)%nat - x b.
Proof. intros H. unfold battery_row. row_value_steps. ring. Qed.

Lemma dc_row_value hw b x :
  row_value (dc_row hw b) x
  == x (b + 3)%nat + batt_eff_dis hw * x (b + 2)%nat
     + inv_eff_chg hw * x (b + 4)%nat - x (b + 1)%nat - x (b + 5)%nat.
Proof. unfold dc_row. row_value_steps. ring. Qed.

Lemma ac_row_value hw b x :
  row_value (ac_row hw b) x
  == x (b + 7)%nat + inv_eff_dis hw * x (b + 5)%nat
     - x (b + 8)%nat - x (b + 6)%nat - x (b + 4)%nat.
Proof. unfold ac_row. row_value_steps. ring. Qed.

Lemma price_row_value b dt k x :
  row_value (set_coef b k (price_row b dt)) x
  == price_sell dt * x (b + 8)%nat - price_buy dt * x (b + 7)%nat
     - x (b + 9)%nat + k * x b.
Proof. unfold set_coef, price_row. cbn [con_lb con_ub con_coef].
  row_value_steps. ring. Qed.

(** X11.  In every assignment that is feasible for the program that a
    dispatch call with [soc] solves on a model built from a forecast
    that is not empty, [cap_init] is exactly [soc * capacity]. *)
Theorem init_charge_is_pinned {G} (g0 : G) hw data ph ci cl h h' m soc x :
  Model_init g0 hw data ph ci cl h = (h', inr m) ->
  data <> [] ->
  feasible (rebound soc m) x = true ->
  x (cap_init m) == soc * capacity hw.
Proof.
  intros Hm Hne Hf.
  destruct (built_nonempty _ _ _ _ _ _ _ _ _ Hm Hne)
    as (_ & Hhw & _ & _ & _ & Hci & Hki & _ & (cs & Hcs)).
  destruct (feasible_rebound _ _ _ Hf) as (_ & _ & Hinit).
  specialize (Hinit (mkCon (Fin 0) (Fin 0) (<[0%nat := 1]> ∅))).
  rewrite Hki, Hcs, Hhw in Hinit. specialize (Hinit eq_refl).
  rewrite row_value_single in Hinit. rewrite Hci. lra.
Qed.

Lemma init_charge_is_pinned_witness :
  Model_init tt hw_demo [0%nat] 1 0 0 heap_demo = (heap_demo, inr demo_model)
  /\ [0%nat] <> []
  /\ feasible (rebound 0.5 demo_model) demo_assignment = true
  /\ demo_assignment (cap_init demo_model) == 0.5 * capacity hw_demo.
Proof.
  split; [reflexivity|]. split; [discriminate|]. split; [reflexivity|].
  exact (init_charge_is_pinned tt hw_demo [0%nat] 1 0 0 heap_demo heap_demo
           demo_model 0.5 demo_assignment eq_refl ltac:(discriminate)
           eq_refl).
Defined.

(** X12.  In every such assignment the charge at the end of each period
    lies between [capacity * batt_min_soc] and [capacity * batt_max_soc],
    and the grid flows of the period between 0 and the grid limits
    divided by [per_hour]. *)
Theorem feasible_within_limits {G} (g0 : G) hw data ph ci cl h h' m soc x
    i d :
  Model_init g0 hw data ph ci cl h = (h', inr m) ->
  data !! i = Some d ->
  feasible (rebound soc m) x = true ->
  (forall c, caps m !! i = Some c ->
     capacity hw * batt_min_soc hw <= x c
     /\ x c <= capacity hw * batt_max_soc hw)
  /\ (forall gi, g_ins m !! i = Some gi ->
        0 <= x gi /\ x gi <= grid_max_in hw / ph)
  /\ (forall go, g_outs m !! i = Some go ->
        0 <= x go /\ x go <= grid_max_out hw / ph).
Proof.
  intros Hm Hi Hf.
  destruct (Model_init_period _ _ _ _ _ _ _ _ _ _ _ Hm Hi)
    as (_ & _ & dts & dt & _ & -> & _ & Hdt).
  destruct (built_period g0 hw data ph ci cl dts i dt Hdt)
    as ((Hc & Hgi & Hgo & _) & _ & Hv & _).
  destruct (feasible_rebound _ _ _ Hf) as (Hb & _).
  pose proof (Hb _ _ (Hv 0%nat ltac:(lia))) as B0.
  pose proof (Hb _ _ (Hv 7%nat ltac:(lia))) as B7.
  pose proof (Hb _ _ (Hv 8%nat ltac:(lia))) as B8.
  cbn [var_lb var_ub] in B0, B7, B8.
  apply in_bounds_Fin in B0, B7, B8. rewrite Nat.add_0_r in B0.
  split; [|split]; intros v Hv'.
  - rewrite Hc in Hv'. injection Hv' as <-. tauto.
  - rewrite Hgi in Hv'. injection Hv' as <-. tauto.
  - rewrite Hgo in Hv'. injection Hv' as <-. tauto.
Qed.

Lemma feasible_within_limits_witness :
  Model_init tt hw_demo [0%nat] 1 0 0 heap_demo = (heap_demo, inr demo_model)
  /\ [0%nat] !! 0%nat = Some 0%nat
  /\ feasible (rebound 0.5 demo_model) demo_assignment = true
  /\ capacity hw_demo * batt_min_soc hw_demo <= demo_assignment 1%nat.
Proof.
  split; [reflexivity|]. split; [reflexivity|]. split; [reflexivity|].
  exact (proj1 (proj1 (feasible_within_limits tt hw_demo [0%nat] 1 0 0
                         heap_demo heap_demo demo_model 0.5 demo_assignment
                         0%nat 0%nat eq_refl eq_refl eq_refl)
                  1%nat eq_refl)).
Defined.

(** X13.  In every such assignment the battery carries its charge from
    period to period: the charge at the end of period [i] is the charge
    before it ([cap_init] for the first period) plus
    [batt_eff_chg] times what is charged minus what is discharged. *)
Theorem feasible_battery_balance {G} (g0 : G) hw data ph ci cl h h' m soc x
    i d :
  Model_init g0 hw data ph ci cl h = (h', inr m) ->
  data !! i = Some d ->
  feasible (rebound soc m) x = true ->
  exists cap_prev cap b_chg b_dis,
    cap_before m i = Some cap_prev
    /\ caps m !! i = Some cap
    /\ named m b_chg ("bc" +:+ pretty i)
    /\ named m b_dis ("bd" +:+ pretty i)
    /\ x cap == x cap_prev + batt_eff_chg hw * x b_chg - x b_dis.
Proof.
  intros Hm Hi Hf.
  destruct (Model_init_period _ _ _ _ _ _ _ _ _ _ _ Hm Hi)
    as (_ & _ & dts & dt & _ & -> & _ & Hdt).
  destruct (built_period g0 hw data ph ci cl dts i dt Hdt)
    as ((Hcaps & _) & _ & Hv & Hrow & _).
  destruct (feasible_rebound _ _ _ Hf) as (_ & Hrows & _).
  specialize (Hrows (1 + 4 * i)%nat _ ltac:(unfold built; cbn [constr_init]; lia) Hrow).
  apply in_bounds_zero in Hrows.
  rewrite battery_row_value in Hrows by (destruct i; lia).
  exists (match i with O => 0 | S j => 1 + 10 * j end)%nat,
         (1 + 10 * i)%nat, (1 + 10 * i + 1)%nat, (1 + 10 * i + 2)%nat.
  split.
  { destruct i as [|j]; [done|]. cbn [cap_before].
    destruct (built_lists g0 hw data ph ci cl dts)
      as (_ & _ & _ & _ & _ & _ & -> & _).
    rewrite steps_lookup; [done|]. apply lookup_lt_Some in Hdt. lia. }
  split; [exact Hcaps|].
  split; [unfold named; by rewrite (Hv 1%nat) by lia|].
  split; [unfold named; by rewrite (Hv 2%nat) by lia|].
  lra.
Qed.

Lemma feasible_battery_balance_witness :
  Model_init tt hw_demo [0%nat] 1 0 0 heap_demo = (heap_demo, inr demo_model)
  /\ [0%nat] !! 0%nat = Some 0%nat
  /\ feasible (rebound 0.5 demo_model) demo_assignment = true
  /\ exists cap, caps demo_model !! 0%nat = Some cap.
Proof.
  split; [reflexivity|]. split; [reflexivity|]. split; [reflexivity|].
  destruct (feasible_battery_balance tt hw_demo [0%nat] 1 0 0 heap_demo
              heap_demo demo_model 0.5 demo_assignment 0%nat 0%nat
              eq_refl eq_refl eq_refl) as (cp & c & bc & bd & _ & Hc & _).
  exists c. exact Hc.
Defined.

(** X14.  In every such assignment the two buses of each period are in
    balance: solar input plus [batt_eff_dis] times the discharge plus
    [inv_eff_chg] times the inverter's charging equals the battery's
    charging plus the inverter's discharging, and grid input plus
    [inv_eff_dis] times the inverter's discharging equals grid output
    plus load plus the inverter's charging; the load served lies between
    the forecast [load] and [load / per_hour]. *)
Theorem feasible_bus_balance {G} (g0 : G) hw data ph ci cl h h' m soc x i d :
  Model_init g0 hw data ph ci cl h = (h', inr m) ->
  data !! i = Some d ->
  feasible (rebound soc m) x = true ->
  exists b_chg b_dis s_in i_chg i_dis l_out g_in g_out,
    (named m b_chg ("bc" +:+ pretty i) /\ named m b_dis ("bd" +:+ pretty i)
     /\ named m s_in ("pv" +:+ pretty i) /\ named m i_chg ("ic" +:+ pretty i)
     /\ named m i_dis ("id" +:+ pretty i) /\ named m l_out ("ld" +:+ pretty i)
     /\ g_ins m !! i = Some g_in /\ g_outs m !! i = Some g_out)
    /\ x s_in + batt_eff_dis hw * x b_dis + inv_eff_chg hw * x i_chg
       == x b_chg + x i_dis
    /\ x g_in + inv_eff_dis hw * x i_dis == x g_out + x l_out + x i_chg
    /\ load (h d) <= x l_out /\ x l_out <= load (h d) / ph.
Proof.
  intros Hm Hi Hf.
  destruct (Model_init_period _ _ _ _ _ _ _ _ _ _ _ Hm Hi)
    as (_ & _ & dts & dt & Hc & -> & _ & Hdt).
  destruct (built_period g0 hw data ph ci cl dts i dt Hdt)
    as ((_ & Hgi & Hgo & _) & _ & Hv & _ & Rdc & Rac & _).
  destruct (check_all_read _ _ _ _ _ _ _ _ Hc Hi Hdt) as (_ & <- & _).
  destruct (feasible_rebound _ _ _ Hf) as (Hb & Hrows & _).
  pose proof (Hrows (1 + 4 * i + 1)%nat _ ltac:(unfold built; cbn [constr_init]; lia) Rdc) as Edc.
  pose proof (Hrows (1 + 4 * i + 2)%nat _ ltac:(unfold built; cbn [constr_init]; lia) Rac) as Eac.
  apply in_bounds_zero in Edc, Eac.
  rewrite dc_row_value in Edc. rewrite ac_row_value in Eac.
  pose proof (Hb _ _ (Hv 6%nat ltac:(lia))) as B6.
  cbn [var_lb var_ub] in B6. apply in_bounds_Fin in B6.
  set (b := (1 + 10 * i)%nat) in *.
  exists (b + 1)%nat, (b + 2)%nat, (b + 3)%nat, (b + 4)%nat, (b + 5)%nat,
         (b + 6)%nat, (b + 7)%nat, (b + 8)%nat.
  split.
  { unfold named.
    rewrite (Hv 1%nat), (Hv 2%nat), (Hv 3%nat), (Hv 4%nat), (Hv 5%nat),
      (Hv 6%nat) by lia.
    done. }
  split; [lra|]. split; [lra|]. tauto.
Qed.

Lemma feasible_bus_balance_witness :
  Model_init tt hw_demo [0%nat] 1 0 0 heap_demo = (heap_demo, inr demo_model)
  /\ [0%nat] !! 0%nat = Some 0%nat
  /\ feasible (rebound 0.5 demo_model) demo_assignment = true
  /\ exists g_in, g_ins demo_model !! 0%nat = Some g_in.
Proof.
  split; [reflexivity|]. split; [reflexivity|]. split; [reflexivity|].
  destruct (feasible_bus_balance tt hw_demo [0%nat] 1 0 0 heap_demo
              heap_demo demo_model 0.5 demo_assignment 0%nat 0%nat
              eq_refl eq_refl eq_refl)
    as (? & ? & ? & ? & ? & ? & gi & ? & (_ & _ & _ & _ & _ & _ & Hgi & _) & _).
  exists gi. exact Hgi.
Defined.

(** X15.  In every such assignment the money of a period is what is
    sold at [price_sell] minus what is bought at [price_buy], at the
    point's prices after construction, plus the valuation of the charge
    held at the end of the period: [chg_last / capacity] per unit for
    the last period, [chg_inter / capacity] for the others. *)
Theorem feasible_money {G} (g0 : G) hw data ph ci cl h h' m soc x i d :
  Model_init g0 hw data ph ci cl h = (h', inr m) ->
  data !! i = Some d ->
  feasible (rebound soc m) x = true ->
  exists cap g_in g_out money,
    (caps m !! i = Some cap /\ g_ins m !! i = Some g_in
     /\ g_outs m !! i = Some g_out /\ moneys m !! i = Some money)
    /\ x money
       == price_sell (h' d) * x g_out - price_buy (h' d) * x g_in
          + (if decide (S i = length data) then cl else ci) / capacity hw
            * x cap.
Proof.
  intros Hm Hi Hf.
  destruct (Model_init_period _ _ _ _ _ _ _ _ _ _ _ Hm Hi)
    as (_ & _ & dts & dt & Hc & -> & Hlen & Hdt).
  destruct (built_period g0 hw data ph ci cl dts i dt Hdt)
    as (Hl & _ & _ & _ & _ & _ & Rpr).
  destruct (check_all_read _ _ _ _ _ _ _ _ Hc Hi Hdt)
    as (Hsell & _ & _ & Hbuy & _).
  destruct (check_all_frame _ _ _ _ _ d Hc) as (Hsell' & _).
  destruct (feasible_rebound _ _ _ Hf) as (_ & Hrows & _).
  pose proof (Hrows (1 + 4 * i + 3)%nat _ ltac:(unfold built; cbn [constr_init]; lia) Rpr) as Epr.
  unfold set_coef, price_row in Epr. cbn [con_lb con_ub con_coef] in Epr.
  apply in_bounds_zero in Epr.
  change (row_value _ x)
    with (row_value (set_coef (1 + 10 * i)%nat
                       ((if decide (S i = length dts) then cl else ci)
                        / capacity hw)
                       (price_row (1 + 10 * i)%nat dt)) x) in Epr.
  rewrite price_row_value in Epr.
  eexists _, _, _, _. split; [exact Hl|].
  rewrite Hsell', <- Hsell, <- Hbuy, <- Hlen. lra.
Qed.

Lemma feasible_money_witness :
  Model_init tt hw_demo [0%nat] 1 0 0 heap_demo = (heap_demo, inr demo_model)
  /\ [0%nat] !! 0%nat = Some 0%nat
  /\ feasible (rebound 0.5 demo_model) demo_assignment = true
  /\ exists money, moneys demo_model !! 0%nat = Some money.
Proof.
  split; [reflexivity|]. split; [reflexivity|]. split; [reflexivity|].
  destruct (feasible_money tt hw_demo [0%nat] 1 0 0 heap_demo
              heap_demo demo_model 0.5 demo_assignment 0%nat 0%nat
              eq_refl eq_refl eq_refl)
    as (? & ? & ? & mo & (_ & _ & _ & Hmo) & _).
  exists mo. exact Hmo.
Defined.

(** X16.  With more than one period per hour, a single point with a
    positive load leaves the program without any feasible assignment,
    for every [soc]: the load variable's upper bound [load / per_hour]
    is below its lower bound [load]. *)
Theorem positive_load_is_infeasible {G} (g0 : G) hw data ph ci cl h h' m
    soc x i d :
  Model_init g0 hw data ph ci cl h = (h', inr m) ->
  data !! i = Some d ->
  1 < ph ->
  0 < load (h d) ->
  feasible (rebound soc m) x = false.
Proof.
  intros Hm Hi Hph Hload.
  destruct (feasible (rebound soc m) x) eqn:Hf; [exfalso | done].
  destruct (Model_init_period _ _ _ _ _ _ _ _ _ _ _ Hm Hi)
    as (_ & _ & dts & dt & Hc & -> & _ & Hdt).
  destruct (built_period g0 hw data ph ci cl dts i dt Hdt)
    as (_ & _ & Hv & _).
  destruct (check_all_read _ _ _ _ _ _ _ _ Hc Hi Hdt) as (_ & Hl & _).
  destruct (feasible_rebound _ _ _ Hf) as (Hb & _).
  pose proof (Hb _ _ (Hv 6%nat ltac:(lia))) as B6.
  cbn [var_lb var_ub] in B6. apply in_bounds_Fin in B6 as [B1 B2].
  rewrite Hl in B1, B2.
  assert (load (h d) / ph < load (h d)) as Hlt.
  { apply Qlt_shift_div_r; [lra | nra]. }
  lra.
Qed.

Lemma positive_load_is_infeasible_witness :
  Model_init tt hw_demo [0%nat] 2 0 0 heap_demo
  = (heap_demo, inr demo_model_half_hour)
  /\ [0%nat] !! 0%nat = Some 0%nat
  /\ 1 < 2 /\ 0 < load (heap_demo 0%nat)
  /\ feasible (rebound 0.5 demo_model_half_hour) demo_assignment = false.
Proof.
  split; [reflexivity|]. split; [reflexivity|].
  split; [reflexivity|]. split; [reflexivity|].
  exact (positive_load_is_infeasible tt hw_demo [0%nat] 2 0 0 heap_demo
           heap_demo demo_model_half_hour 0.5 demo_assignment 0%nat 0%nat
           eq_refl eq_refl eq_refl eq_refl).
Defined.
